(** * libcamera: V4L2 pixel formats, bound method activation, signals and
      the threaded event notifier test

    A shallow embedding of [src/libcamera/v4l2_pixelformat.cpp],
    [bound_method.cpp] and [test/event-thread.cpp], with the properties of
    their specification stated and proved over it. *)

From stdpp Require Import gmap strings list functions.
From Stdlib Require Import ZArith Lia Ascii.

Local Open Scope Z_scope.

(** ** Basic types *)

(** Threads, objects, semaphores and argument packs are referred to by
    identity, as the C++ code refers to them by pointer. *)
Definition ThreadId := nat.
Definition ObjectId := nat.
Definition SemId := nat.
Definition PackId := nat.
Bind Scope nat_scope with ThreadId ObjectId SemId PackId.

(** Type-erased call arguments and return value of a bound method. *)
Definition Args := list Z.
Definition RetVal := Z.

(** [enum ConnectionType], an [int]-backed C++ enumeration: a variable of
    the type can hold values outside the four enumerators, which is why the
    [switch] of [activatePack] has a [default] label.  The header that
    declares it is a file of its own, not embedded here; the enumerators are
    numbered in the order in which the [\enum] comment of bound_method.cpp
    documents them. *)
Definition ConnectionType := Z.
Definition ConnectionTypeAuto : ConnectionType := 0.
Definition ConnectionTypeDirect : ConnectionType := 1.
Definition ConnectionTypeQueued : ConnectionType := 2.
Definition ConnectionTypeBlocking : ConnectionType := 3.

(** [BoundMethodBase]: the receiver [object_], the stored [connectionType_]
    and the bound function.  [invokePack] is pure virtual in the base class;
    its documented effect is to call the function on the arguments of the
    pack and to store the return value in the pack. *)
Record BoundMethodBase := {
  object_ : ObjectId;
  connectionType_ : ConnectionType;
  func_ : Args -> RetVal
}.

(** [InvokeMessage(method, pack, semaphore, deleteMethod)]. *)
Record InvokeMessage := {
  method_ : BoundMethodBase;
  pack_ : PackId;
  semaphore_ : option SemId;
  deleteMethod_ : bool
}.

(** Log severities of [LOG(category, severity)]. *)
Inductive LogSeverity := LogDebug | LogInfo | LogWarning | LogError | LogFatal.

(** ** Effects

    The code under study calls into the rest of the library; a program is
    a tree of those calls, each with the continuation that receives its
    result. *)
Inductive Prog (A : Type) : Type :=
| Ret (a : A)
| Log (category : string) (severity : LogSeverity) (text : string)
      (k : Prog A)
| ThreadCurrent (k : ThreadId -> Prog A)
| ObjectThread (o : ObjectId) (k : ThreadId -> Prog A)
| InvokePack (m : BoundMethodBase) (p : PackId) (k : Prog A)
| DeleteMethod (m : BoundMethodBase) (k : Prog A)
| SemaphoreNew (k : SemId -> Prog A)
| PostMessage (o : ObjectId) (msg : InvokeMessage) (k : Prog A)
| SemaphoreAcquire (s : SemId) (k : Prog A).

Arguments Ret {A} a.
Arguments Log {A} category severity text k.
Arguments ThreadCurrent {A} k.
Arguments ObjectThread {A} o k.
Arguments InvokePack {A} m p k.
Arguments DeleteMethod {A} m k.
Arguments SemaphoreNew {A} k.
Arguments PostMessage {A} o msg k.
Arguments SemaphoreAcquire {A} s k.

Fixpoint bind {A B : Type} (c : Prog A) (f : A -> Prog B) : Prog B :=
  match c with
  | Ret a => f a
  | Log cat sev text k => Log cat sev text (bind k f)
  | ThreadCurrent k => ThreadCurrent (fun t => bind (k t) f)
  | ObjectThread o k => ObjectThread o (fun t => bind (k t) f)
  | InvokePack m p k => InvokePack m p (bind k f)
  | DeleteMethod m k => DeleteMethod m (bind k f)
  | SemaphoreNew k => SemaphoreNew (fun s => bind (k s) f)
  | PostMessage o msg k => PostMessage o msg (bind k f)
  | SemaphoreAcquire s k => SemaphoreAcquire s (bind k f)
  end.

(** [Prog] is a monad; programs are written with stdpp's notations
    [x ← c; k] and [c;; k]. *)
#[global] Instance Prog_ret : MRet Prog := @Ret.
#[global] Instance Prog_bind : MBind Prog := fun A B f c => bind c f.

(** The library calls as one-step programs. *)
Definition log (cat : string) (sev : LogSeverity) (text : string) : Prog unit :=
  Log cat sev text (Ret tt).
Definition Thread_current : Prog ThreadId := ThreadCurrent Ret.
Definition Object_thread (o : ObjectId) : Prog ThreadId := ObjectThread o Ret.
Definition invokePack (m : BoundMethodBase) (p : PackId) : Prog unit :=
  InvokePack m p (Ret tt).
Definition delete_this (m : BoundMethodBase) : Prog unit :=
  DeleteMethod m (Ret tt).
Definition Semaphore_new : Prog SemId := SemaphoreNew Ret.
Definition Object_postMessage (o : ObjectId) (msg : InvokeMessage) : Prog unit :=
  PostMessage o msg (Ret tt).
Definition Semaphore_acquire (s : SemId) : Prog unit :=
  SemaphoreAcquire s (Ret tt).

(** ** The calls a program performs

    [Env] is what a call observes of its surroundings: the thread it runs
    on, the thread every object lives on, and the identity the next
    semaphore constructed on its stack gets. *)
Record Env := {
  current : ThreadId;
  thread_of : ObjectId -> ThreadId;
  next_sem : SemId
}.

Inductive Effect :=
| ELog (category : string) (severity : LogSeverity) (text : string)
| EInvokePack (m : BoundMethodBase) (p : PackId)
| EDeleteMethod (m : BoundMethodBase)
| ESemaphoreNew (s : SemId)
| EPostMessage (o : ObjectId) (msg : InvokeMessage)
| ESemaphoreAcquire (s : SemId).

(** The calls [c] performs on the caller's stack, in order, and the value
    it returns once every call has returned. *)
Fixpoint effects {A : Type} (env : Env) (c : Prog A) : list Effect * A :=
  match c with
  | Ret a => ([], a)
  | Log cat sev text k =>
      let '(es, a) := effects env k in (ELog cat sev text :: es, a)
  | ThreadCurrent k => effects env (k (current env))
  | ObjectThread o k => effects env (k (thread_of env o))
  | InvokePack m p k =>
      let '(es, a) := effects env k in (EInvokePack m p :: es, a)
  | DeleteMethod m k =>
      let '(es, a) := effects env k in (EDeleteMethod m :: es, a)
  | SemaphoreNew k =>
      let s := next_sem env in
      let env' := {| current := current env; thread_of := thread_of env;
                     next_sem := S s |} in
      let '(es, a) := effects env' (k s) in (ESemaphoreNew s :: es, a)
  | PostMessage o msg k =>
      let '(es, a) := effects env k in (EPostMessage o msg :: es, a)
  | SemaphoreAcquire s k =>
      let '(es, a) := effects env k in (ESemaphoreAcquire s :: es, a)
  end.

Definition is_log (e : Effect) : bool :=
  match e with ELog _ _ _ => true | _ => false end.

(** ** V4L2 pixel formats *)

Module V4L2.

(** [class V4L2PixelFormat]: a wrapper around the numerical FourCC, a
    [uint32_t]. *)
Record V4L2PixelFormat := { fourcc_ : Z }.

Definition chr (c : ascii) : Z := Z.of_N (N_of_ascii c).

(** [v4l2_fourcc(a, b, c, d)] of linux/videodev2.h. *)
Definition v4l2_fourcc (a b c d : ascii) : Z :=
  Z.lor (Z.lor (Z.lor (chr a) (Z.shiftl (chr b) 8)) (Z.shiftl (chr c) 16))
        (Z.shiftl (chr d) 24).
Arguments v4l2_fourcc (a b c d)%_char.

(** [isprint] of ctype.h in the C locale, on the values a 7-bit [char]
    takes. *)
Definition isprint (c : Z) : bool := (32 <=? c) && (c <=? 126).

(** A [char] as a character of the returned [std::string]. *)
Definition char_to_ascii (c : Z) : ascii := ascii_of_N (Z.to_N c).

(** [strlen]: the index of the first NUL of a character array. *)
Fixpoint strlen (s : list Z) : nat :=
  match s with
  | [] => O
  | c :: s' => if c =? 0 then O else S (strlen s')
  end.

(** Writes the characters [src] into [dst] from index [i] on. *)
Fixpoint store_chars (dst : list Z) (i : nat) (src : list Z) : list Z :=
  match src with
  | [] => dst
  | c :: src' => store_chars (<[i := c]> dst) (S i) src'
  end.

(** [strcat(dst, src)]: copies [src] and its terminating NUL over the
    terminating NUL of [dst]. *)
Definition strcat (dst : list Z) (src : list Z) : list Z :=
  store_chars dst (strlen dst) (src ++ [0]).

(** Construction of a [std::string] from a C string: the characters
    before the first NUL. *)
Fixpoint string_of_cstr (s : list Z) : string :=
  match s with
  | [] => EmptyString
  | c :: s' => if c =? 0 then EmptyString
               else String (char_to_ascii c) (string_of_cstr s')
  end.

(** The body of the [for] loop of [toString]:
    [if (!isprint(ss[i])) ss[i] = '.';] *)
Definition toString_fix (ss : list Z) (i : nat) : list Z :=
  if negb (isprint (ss !!! i)) then <[i := chr "."%char]> ss else ss.

(** [std::string V4L2PixelFormat::toString() const].  The array [ss] has
    8 cells, enough for the four characters, "-BE" and the terminating
    NUL; [1 << 31], converted to [uint32_t] for the conjunction, is
    [2 ^ 31]. *)
Definition toString (v : V4L2PixelFormat) : string :=
  if fourcc_ v =? 0 then "<INVALID>"
  else
    let ss := [ Z.land (fourcc_ v) 127;
                Z.land (Z.shiftr (fourcc_ v) 8) 127;
                Z.land (Z.shiftr (fourcc_ v) 16) 127;
                Z.land (Z.shiftr (fourcc_ v) 24) 127;
                0; 0; 0; 0 ] in
    let ss := foldl toString_fix ss (seq 0 4) in
    let ss :=
      if negb (Z.land (fourcc_ v) (Z.shiftl 1 31) =? 0)
      then strcat ss (map chr (String.list_ascii_of_string "-BE"))
      else ss in
    string_of_cstr ss.

(** The V4L2 FourCCs of linux/videodev2.h that the table uses. *)
Definition V4L2_PIX_FMT_RGB565 : Z := v4l2_fourcc "R" "G" "B" "P".
Definition V4L2_PIX_FMT_RGB565X : Z := v4l2_fourcc "R" "G" "B" "R".
Definition V4L2_PIX_FMT_RGB24 : Z := v4l2_fourcc "R" "G" "B" "3".
Definition V4L2_PIX_FMT_BGR24 : Z := v4l2_fourcc "B" "G" "R" "3".
Definition V4L2_PIX_FMT_XBGR32 : Z := v4l2_fourcc "X" "R" "2" "4".
Definition V4L2_PIX_FMT_XRGB32 : Z := v4l2_fourcc "B" "X" "2" "4".
Definition V4L2_PIX_FMT_RGBX32 : Z := v4l2_fourcc "X" "B" "2" "4".
Definition V4L2_PIX_FMT_RGBA32 : Z := v4l2_fourcc "A" "B" "2" "4".
Definition V4L2_PIX_FMT_ABGR32 : Z := v4l2_fourcc "A" "R" "2" "4".
Definition V4L2_PIX_FMT_ARGB32 : Z := v4l2_fourcc "B" "A" "2" "4".
Definition V4L2_PIX_FMT_BGRA32 : Z := v4l2_fourcc "R" "A" "2" "4".
Definition V4L2_PIX_FMT_YUYV : Z := v4l2_fourcc "Y" "U" "Y" "V".
Definition V4L2_PIX_FMT_YVYU : Z := v4l2_fourcc "Y" "V" "Y" "U".
Definition V4L2_PIX_FMT_UYVY : Z := v4l2_fourcc "U" "Y" "V" "Y".
Definition V4L2_PIX_FMT_VYUY : Z := v4l2_fourcc "V" "Y" "U" "Y".
Definition V4L2_PIX_FMT_NV16 : Z := v4l2_fourcc "N" "V" "1" "6".
Definition V4L2_PIX_FMT_NV16M : Z := v4l2_fourcc "N" "M" "1" "6".
Definition V4L2_PIX_FMT_NV61 : Z := v4l2_fourcc "N" "V" "6" "1".
Definition V4L2_PIX_FMT_NV61M : Z := v4l2_fourcc "N" "M" "6" "1".
Definition V4L2_PIX_FMT_NV12 : Z := v4l2_fourcc "N" "V" "1" "2".
Definition V4L2_PIX_FMT_NV12M : Z := v4l2_fourcc "N" "M" "1" "2".
Definition V4L2_PIX_FMT_NV21 : Z := v4l2_fourcc "N" "V" "2" "1".
Definition V4L2_PIX_FMT_NV21M : Z := v4l2_fourcc "N" "M" "2" "1".
Definition V4L2_PIX_FMT_YUV420 : Z := v4l2_fourcc "Y" "U" "1" "2".
Definition V4L2_PIX_FMT_YUV420M : Z := v4l2_fourcc "Y" "M" "1" "2".
Definition V4L2_PIX_FMT_YVU420 : Z := v4l2_fourcc "Y" "V" "1" "2".
Definition V4L2_PIX_FMT_YVU420M : Z := v4l2_fourcc "Y" "M" "2" "1".
Definition V4L2_PIX_FMT_YUV422P : Z := v4l2_fourcc "4" "2" "2" "P".
Definition V4L2_PIX_FMT_YUV422M : Z := v4l2_fourcc "Y" "M" "1" "6".
Definition V4L2_PIX_FMT_GREY : Z := v4l2_fourcc "G" "R" "E" "Y".
Definition V4L2_PIX_FMT_SBGGR8 : Z := v4l2_fourcc "B" "A" "8" "1".
Definition V4L2_PIX_FMT_SGBRG8 : Z := v4l2_fourcc "G" "B" "R" "G".
Definition V4L2_PIX_FMT_SGRBG8 : Z := v4l2_fourcc "G" "R" "B" "G".
Definition V4L2_PIX_FMT_SRGGB8 : Z := v4l2_fourcc "R" "G" "G" "B".
Definition V4L2_PIX_FMT_SBGGR10 : Z := v4l2_fourcc "B" "G" "1" "0".
Definition V4L2_PIX_FMT_SGBRG10 : Z := v4l2_fourcc "G" "B" "1" "0".
Definition V4L2_PIX_FMT_SGRBG10 : Z := v4l2_fourcc "B" "A" "1" "0".
Definition V4L2_PIX_FMT_SRGGB10 : Z := v4l2_fourcc "R" "G" "1" "0".
Definition V4L2_PIX_FMT_SBGGR10P : Z := v4l2_fourcc "p" "B" "A" "A".
Definition V4L2_PIX_FMT_SGBRG10P : Z := v4l2_fourcc "p" "G" "A" "A".
Definition V4L2_PIX_FMT_SGRBG10P : Z := v4l2_fourcc "p" "g" "A" "A".
Definition V4L2_PIX_FMT_SRGGB10P : Z := v4l2_fourcc "p" "R" "A" "A".
Definition V4L2_PIX_FMT_SBGGR12 : Z := v4l2_fourcc "B" "G" "1" "2".
Definition V4L2_PIX_FMT_SGBRG12 : Z := v4l2_fourcc "G" "B" "1" "2".
Definition V4L2_PIX_FMT_SGRBG12 : Z := v4l2_fourcc "B" "A" "1" "2".
Definition V4L2_PIX_FMT_SRGGB12 : Z := v4l2_fourcc "R" "G" "1" "2".
Definition V4L2_PIX_FMT_SBGGR12P : Z := v4l2_fourcc "p" "B" "C" "C".
Definition V4L2_PIX_FMT_SGBRG12P : Z := v4l2_fourcc "p" "G" "C" "C".
Definition V4L2_PIX_FMT_SGRBG12P : Z := v4l2_fourcc "p" "g" "C" "C".
Definition V4L2_PIX_FMT_SRGGB12P : Z := v4l2_fourcc "p" "R" "C" "C".
Definition V4L2_PIX_FMT_SBGGR16 : Z := v4l2_fourcc "B" "Y" "R" "2".
Definition V4L2_PIX_FMT_SGBRG16 : Z := v4l2_fourcc "G" "B" "1" "6".
Definition V4L2_PIX_FMT_SGRBG16 : Z := v4l2_fourcc "G" "R" "1" "6".
Definition V4L2_PIX_FMT_SRGGB16 : Z := v4l2_fourcc "R" "G" "1" "6".
Definition V4L2_PIX_FMT_MJPEG : Z := v4l2_fourcc "M" "J" "P" "G".

(** The names of the [formats::] constants the table refers to. *)
Module formats.
Inductive name :=
  | RGB565 | RGB565_BE | BGR888 | RGB888 | XRGB8888 | BGRX8888 | XBGR8888
  | ABGR8888 | ARGB8888 | BGRA8888 | RGBA8888 | YUYV | YVYU | UYVY | VYUY
  | NV16 | NV61 | NV12 | NV21 | YUV420 | YVU420 | YUV422 | R8 | SBGGR8
  | SGBRG8 | SGRBG8 | SRGGB8 | SBGGR10 | SGBRG10 | SGRBG10 | SRGGB10
  | SBGGR10_CSI2P | SGBRG10_CSI2P | SGRBG10_CSI2P | SRGGB10_CSI2P | SBGGR12
  | SGBRG12 | SGRBG12 | SRGGB12 | SBGGR12_CSI2P | SGBRG12_CSI2P
  | SGRBG12_CSI2P | SRGGB12_CSI2P | SBGGR16 | SGBRG16 | SGRBG16 | SRGGB16
  | MJPEG.
End formats.


Section PixelFormats.

(** [class PixelFormat] and the [formats::] constants are declared in
    headers that are not embedded here: the type, its
    default-constructed (invalid) value [PixelFormat()] and the value of
    each constant are parameters. *)
Variable PixelFormat : Type.
Variable PixelFormat_default : PixelFormat.
Variable formats : formats.name -> PixelFormat.

(** [struct V4L2PixelFormat::Info]. *)
Record Info := { format : PixelFormat; description : string }.

(** The initializer list of [vpf2pf], in source order. *)
Definition vpf2pf_entries : list (Z * Info) :=
  [
    (V4L2_PIX_FMT_RGB565,
      {| format := formats formats.RGB565; description := "16-bit RGB 5-6-5" |});
    (V4L2_PIX_FMT_RGB565X,
      {| format := formats formats.RGB565_BE; description := "16-bit RGB 5-6-5 BE" |});
    (V4L2_PIX_FMT_RGB24,
      {| format := formats formats.BGR888; description := "24-bit RGB 8-8-8" |});
    (V4L2_PIX_FMT_BGR24,
      {| format := formats formats.RGB888; description := "24-bit BGR 8-8-8" |});
    (V4L2_PIX_FMT_XBGR32,
      {| format := formats formats.XRGB8888; description := "32-bit BGRX 8-8-8-8" |});
    (V4L2_PIX_FMT_XRGB32,
      {| format := formats formats.BGRX8888; description := "32-bit XRGB 8-8-8-8" |});
    (V4L2_PIX_FMT_RGBX32,
      {| format := formats formats.XBGR8888; description := "32-bit RGBX 8-8-8-8" |});
    (V4L2_PIX_FMT_RGBA32,
      {| format := formats formats.ABGR8888; description := "32-bit RGBA 8-8-8-8" |});
    (V4L2_PIX_FMT_ABGR32,
      {| format := formats formats.ARGB8888; description := "32-bit BGRA 8-8-8-8" |});
    (V4L2_PIX_FMT_ARGB32,
      {| format := formats formats.BGRA8888; description := "32-bit ARGB 8-8-8-8" |});
    (V4L2_PIX_FMT_BGRA32,
      {| format := formats formats.RGBA8888; description := "32-bit ABGR 8-8-8-8" |});
    (V4L2_PIX_FMT_YUYV,
      {| format := formats formats.YUYV; description := "YUYV 4:2:2" |});
    (V4L2_PIX_FMT_YVYU,
      {| format := formats formats.YVYU; description := "YVYU 4:2:2" |});
    (V4L2_PIX_FMT_UYVY,
      {| format := formats formats.UYVY; description := "UYVY 4:2:2" |});
    (V4L2_PIX_FMT_VYUY,
      {| format := formats formats.VYUY; description := "VYUY 4:2:2" |});
    (V4L2_PIX_FMT_NV16,
      {| format := formats formats.NV16; description := "Y/CbCr 4:2:2" |});
    (V4L2_PIX_FMT_NV16M,
      {| format := formats formats.NV16; description := "Y/CbCr 4:2:2 (N-C)" |});
    (V4L2_PIX_FMT_NV61,
      {| format := formats formats.NV61; description := "Y/CrCb 4:2:2" |});
    (V4L2_PIX_FMT_NV61M,
      {| format := formats formats.NV61; description := "Y/CrCb 4:2:2 (N-C)" |});
    (V4L2_PIX_FMT_NV12,
      {| format := formats formats.NV12; description := "Y/CbCr 4:2:0" |});
    (V4L2_PIX_FMT_NV12M,
      {| format := formats formats.NV12; description := "Y/CbCr 4:2:0 (N-C)" |});
    (V4L2_PIX_FMT_NV21,
      {| format := formats formats.NV21; description := "Y/CrCb 4:2:0" |});
    (V4L2_PIX_FMT_NV21M,
      {| format := formats formats.NV21; description := "Y/CrCb 4:2:0 (N-C)" |});
    (V4L2_PIX_FMT_YUV420,
      {| format := formats formats.YUV420; description := "Planar YUV 4:2:0" |});
    (V4L2_PIX_FMT_YUV420M,
      {| format := formats formats.YUV420; description := "Planar YUV 4:2:0 (N-C)" |});
    (V4L2_PIX_FMT_YVU420,
      {| format := formats formats.YVU420; description := "Planar YVU 4:2:0" |});
    (V4L2_PIX_FMT_YVU420M,
      {| format := formats formats.YVU420; description := "Planar YVU 4:2:0 (N-C)" |});
    (V4L2_PIX_FMT_YUV422P,
      {| format := formats formats.YUV422; description := "Planar YUV 4:2:2" |});
    (V4L2_PIX_FMT_YUV422M,
      {| format := formats formats.YUV422; description := "Planar YUV 4:2:2 (N-C)" |});
    (V4L2_PIX_FMT_GREY,
      {| format := formats formats.R8; description := "8-bit Greyscale" |});
    (V4L2_PIX_FMT_SBGGR8,
      {| format := formats formats.SBGGR8; description := "8-bit Bayer BGBG/GRGR" |});
    (V4L2_PIX_FMT_SGBRG8,
      {| format := formats formats.SGBRG8; description := "8-bit Bayer GBGB/RGRG" |});
    (V4L2_PIX_FMT_SGRBG8,
      {| format := formats formats.SGRBG8; description := "8-bit Bayer GRGR/BGBG" |});
    (V4L2_PIX_FMT_SRGGB8,
      {| format := formats formats.SRGGB8; description := "8-bit Bayer RGRG/GBGB" |});
    (V4L2_PIX_FMT_SBGGR10,
      {| format := formats formats.SBGGR10; description := "10-bit Bayer BGBG/GRGR" |});
    (V4L2_PIX_FMT_SGBRG10,
      {| format := formats formats.SGBRG10; description := "10-bit Bayer GBGB/RGRG" |});
    (V4L2_PIX_FMT_SGRBG10,
      {| format := formats formats.SGRBG10; description := "10-bit Bayer GRGR/BGBG" |});
    (V4L2_PIX_FMT_SRGGB10,
      {| format := formats formats.SRGGB10; description := "10-bit Bayer RGRG/GBGB" |});
    (V4L2_PIX_FMT_SBGGR10P,
      {| format := formats formats.SBGGR10_CSI2P; description := "10-bit Bayer BGBG/GRGR Packed" |});
    (V4L2_PIX_FMT_SGBRG10P,
      {| format := formats formats.SGBRG10_CSI2P; description := "10-bit Bayer GBGB/RGRG Packed" |});
    (V4L2_PIX_FMT_SGRBG10P,
      {| format := formats formats.SGRBG10_CSI2P; description := "10-bit Bayer GRGR/BGBG Packed" |});
    (V4L2_PIX_FMT_SRGGB10P,
      {| format := formats formats.SRGGB10_CSI2P; description := "10-bit Bayer RGRG/GBGB Packed" |});
    (V4L2_PIX_FMT_SBGGR12,
      {| format := formats formats.SBGGR12; description := "12-bit Bayer BGBG/GRGR" |});
    (V4L2_PIX_FMT_SGBRG12,
      {| format := formats formats.SGBRG12; description := "12-bit Bayer GBGB/RGRG" |});
    (V4L2_PIX_FMT_SGRBG12,
      {| format := formats formats.SGRBG12; description := "12-bit Bayer GRGR/BGBG" |});
    (V4L2_PIX_FMT_SRGGB12,
      {| format := formats formats.SRGGB12; description := "12-bit Bayer RGRG/GBGB" |});
    (V4L2_PIX_FMT_SBGGR12P,
      {| format := formats formats.SBGGR12_CSI2P; description := "12-bit Bayer BGBG/GRGR Packed" |});
    (V4L2_PIX_FMT_SGBRG12P,
      {| format := formats formats.SGBRG12_CSI2P; description := "12-bit Bayer GBGB/RGRG Packed" |});
    (V4L2_PIX_FMT_SGRBG12P,
      {| format := formats formats.SGRBG12_CSI2P; description := "12-bit Bayer GRGR/BGBG Packed" |});
    (V4L2_PIX_FMT_SRGGB12P,
      {| format := formats formats.SRGGB12_CSI2P; description := "12-bit Bayer RGRG/GBGB Packed" |});
    (V4L2_PIX_FMT_SBGGR16,
      {| format := formats formats.SBGGR16; description := "16-bit Bayer BGBG/GRGR" |});
    (V4L2_PIX_FMT_SGBRG16,
      {| format := formats formats.SGBRG16; description := "16-bit Bayer GBGB/RGRG" |});
    (V4L2_PIX_FMT_SGRBG16,
      {| format := formats formats.SGRBG16; description := "16-bit Bayer GRGR/BGBG" |});
    (V4L2_PIX_FMT_SRGGB16,
      {| format := formats formats.SRGGB16; description := "16-bit Bayer RGRG/GBGB" |});
    (V4L2_PIX_FMT_MJPEG,
      {| format := formats formats.MJPEG; description := "Motion-JPEG" |})
  ].

(** [std::map<V4L2PixelFormat, Info> vpf2pf]; keys compare by FourCC, and
    on construction from the initializer list the first entry of a key is
    the one kept. *)
Definition vpf2pf : gmap Z Info := list_to_map vpf2pf_entries.

(** [PixelFormat V4L2PixelFormat::toPixelFormat() const]. *)
Definition toPixelFormat (v : V4L2PixelFormat) : Prog PixelFormat :=
  match vpf2pf !! fourcc_ v with
  | None =>
      log "V4L2" LogWarning ("Unsupported V4L2 pixel format " +:+ toString v);;
      mret PixelFormat_default
  | Some info => mret (format info)
  end.

End PixelFormats.

(** What the specification says [toString] returns for a non-zero FourCC:
    byte [i] masked to 7 bits, with '.' for a non-printable character. *)
Definition masked_byte (fourcc : Z) (i : Z) : Z :=
  Z.land (Z.shiftr fourcc (8 * i)) 127.

Definition printable_or_dot (c : Z) : ascii :=
  if isprint c then char_to_ascii c else "."%char.

Definition fourcc_name (fourcc : Z) : string :=
  String (printable_or_dot (masked_byte fourcc 0))
    (String (printable_or_dot (masked_byte fourcc 1))
      (String (printable_or_dot (masked_byte fourcc 2))
        (String (printable_or_dot (masked_byte fourcc 3))
          (if Z.testbit fourcc 31 then "-BE" else "")))).

Lemma land_bit31 (f : Z) :
  (Z.land f (Z.shiftl 1 31) =? 0) = negb (Z.testbit f 31).
Proof.
  change (Z.shiftl 1 31) with (2 ^ 31).
  destruct (Z.testbit f 31) eqn:Hb; simpl.
  - apply Z.eqb_neq. intros H0.
    assert (Z.testbit (Z.land f (2 ^ 31)) 31 = true) as Ht.
    { rewrite Z.land_spec, Hb, Z.pow2_bits_true by lia. reflexivity. }
    rewrite H0 in Ht. rewrite Z.bits_0 in Ht. discriminate.
  - apply Z.eqb_eq. apply Z.bits_inj'. intros n Hn.
    rewrite Z.land_spec, Z.bits_0.
    destruct (Z.eq_dec n 31) as [->|Hne].
    + rewrite Hb. reflexivity.
    + rewrite Z.pow2_bits_false by lia. apply andb_false_r.
Qed.

Lemma isprint_nonzero (c : Z) : isprint c = true -> (c =? 0) = false.
Proof.
  unfold isprint. intros H. apply andb_true_iff in H as [H _].
  apply Z.leb_le in H. apply Z.eqb_neq. lia.
Qed.

(** One step of the replacement loop on a cell holding [c]. *)
Definition fixed (c : Z) : Z := if isprint c then c else chr "."%char.

Lemma fixed_nonzero (c : Z) : (fixed c =? 0) = false.
Proof.
  unfold fixed. destruct (isprint c) eqn:H; [by apply isprint_nonzero | reflexivity].
Qed.

Lemma fixed_ascii (c : Z) : char_to_ascii (fixed c) = printable_or_dot c.
Proof. unfold fixed, printable_or_dot. by destruct (isprint c). Qed.

Lemma toString_loop (c0 c1 c2 c3 : Z) (rest : list Z) :
  foldl toString_fix (c0 :: c1 :: c2 :: c3 :: rest) (seq 0 4)
  = fixed c0 :: fixed c1 :: fixed c2 :: fixed c3 :: rest.
Proof.
  unfold fixed. cbn [seq foldl]. unfold toString_fix. cbn.
  destruct (isprint c0); cbn; destruct (isprint c1); cbn;
    destruct (isprint c2); cbn; destruct (isprint c3); reflexivity.
Qed.

Lemma toString_nonzero (f : Z) :
  f <> 0 -> toString {| fourcc_ := f |} = fourcc_name f.
Proof.
  intros Hf. unfold toString, fourcc_name, masked_byte. cbn [fourcc_].
  apply Z.eqb_neq in Hf. rewrite Hf.
  change (8 * 0) with 0. rewrite Z.shiftr_0_r.
  change (8 * 1) with 8. change (8 * 2) with 16. change (8 * 3) with 24.
  rewrite toString_loop, land_bit31, negb_involutive.
  rewrite <- !fixed_ascii.
  destruct (Z.testbit f 31).
  - unfold strcat. cbn [strlen]. rewrite !fixed_nonzero. cbn.
    rewrite !fixed_nonzero. reflexivity.
  - cbn. rewrite !fixed_nonzero. reflexivity.
Qed.

(** C8: [toString] returns "<INVALID>" exactly for the FourCC 0; for any
    other FourCC it returns the four characters taken from bytes 0 to 3 of
    the FourCC, each masked to 7 bits and replaced by '.' when it is not
    printable, followed by "-BE" exactly when bit 31 is set. *)
Theorem toString_spec (f : Z) :
  (toString {| fourcc_ := f |} = "<INVALID>" <-> f = 0) /\
  (f <> 0 -> toString {| fourcc_ := f |} = fourcc_name f).
Proof.
  split; [|apply toString_nonzero].
  split.
  - intros H. destruct (Z.eq_dec f 0) as [|Hne]; [done|].
    rewrite toString_nonzero in H by done.
    unfold fourcc_name in H. apply (f_equal String.length) in H.
    destruct (Z.testbit f 31); discriminate H.
  - intros ->. reflexivity.
Qed.

Section PixelFormatsFacts.

Variable PixelFormat : Type.
Variable PixelFormat_default : PixelFormat.
Variable formats : formats.name -> PixelFormat.

Local Abbreviation entries := (vpf2pf_entries PixelFormat formats).
Local Abbreviation table := (vpf2pf PixelFormat formats).

(** No FourCC is listed twice in the table. *)
Lemma vpf2pf_keys_NoDup : NoDup (entries.*1).
Proof. apply (bool_decide_unpack _). vm_compute. reflexivity. Qed.

Lemma vpf2pf_lookup_Some (k : Z) (info : Info PixelFormat) :
  table !! k = Some info <-> (k, info) ∈ entries.
Proof.
  unfold vpf2pf. split.
  - apply elem_of_list_to_map_2.
  - apply elem_of_list_to_map_1, vpf2pf_keys_NoDup.
Qed.

Lemma vpf2pf_lookup_None (k : Z) :
  table !! k = None <-> k ∉ entries.*1.
Proof. unfold vpf2pf. symmetry. apply not_elem_of_list_to_map. Qed.

(** C9: [toPixelFormat] returns the PixelFormat the table pairs with the
    FourCC when the FourCC is listed, and the default-constructed
    PixelFormat for every FourCC that is not listed; it always returns, and
    the only call it makes is the warning it logs in the second case. *)
Theorem toPixelFormat_spec (env : Env) (v : V4L2PixelFormat) :
  (forall info, (fourcc_ v, info) ∈ entries ->
     effects env (toPixelFormat PixelFormat PixelFormat_default formats v)
     = ([], format PixelFormat info)) /\
  (fourcc_ v ∉ entries.*1 ->
     effects env (toPixelFormat PixelFormat PixelFormat_default formats v)
     = ([ELog "V4L2" LogWarning
           ("Unsupported V4L2 pixel format " +:+ toString v)],
        PixelFormat_default)) /\
  forallb is_log
    (effects env (toPixelFormat PixelFormat PixelFormat_default formats v)).1
  = true.
Proof.
  unfold toPixelFormat. repeat split.
  - intros info Hin. apply vpf2pf_lookup_Some in Hin. rewrite Hin. reflexivity.
  - intros Hnot. apply vpf2pf_lookup_None in Hnot. rewrite Hnot. reflexivity.
  - destruct (table !! fourcc_ v); reflexivity.
Qed.

End PixelFormatsFacts.

(** [toString] on two FourCCs: a V4L2 format, and the same value with the
    big-endian bit set. *)
Lemma toString_spec_witness :
  toString {| fourcc_ := V4L2_PIX_FMT_YUYV |} = "YUYV" /\
  toString {| fourcc_ := Z.lor V4L2_PIX_FMT_RGB565 (2 ^ 31) |} = "RGBP-BE".
Proof.
  split.
  - rewrite (proj2 (toString_spec V4L2_PIX_FMT_YUYV)); [reflexivity|].
    vm_compute. discriminate.
  - rewrite (proj2 (toString_spec (Z.lor V4L2_PIX_FMT_RGB565 (2 ^ 31))));
      [reflexivity|]. vm_compute. discriminate.
Defined.

(** [toPixelFormat] on a listed FourCC (NV12) and on one that is not
    listed (0), with the format constants kept symbolic. *)
Lemma toPixelFormat_spec_witness :
  let env := {| current := O; thread_of := fun _ => O; next_sem := O |} in
  effects env (toPixelFormat (option formats.name) None Some
                 {| fourcc_ := V4L2_PIX_FMT_NV12 |})
  = ([], Some formats.NV12) /\
  effects env (toPixelFormat (option formats.name) None Some {| fourcc_ := 0 |})
  = ([ELog "V4L2" LogWarning "Unsupported V4L2 pixel format <INVALID>"], None).
Proof.
  intros env. split.
  - apply (proj1 (toPixelFormat_spec (option formats.name) None Some env
                    {| fourcc_ := V4L2_PIX_FMT_NV12 |})
             {| format := Some formats.NV12; description := "Y/CbCr 4:2:0" |}).
    apply vpf2pf_lookup_Some. vm_compute. reflexivity.
  - apply (proj1 (proj2 (toPixelFormat_spec (option formats.name) None Some env
                           {| fourcc_ := 0 |}))).
    apply vpf2pf_lookup_None. vm_compute. reflexivity.
Defined.

End V4L2.

(** ** Bound method activation (bound_method.cpp) *)

Module BoundMethod.

(** The first statement of [activatePack]: the stored connection type,
    with [ConnectionTypeAuto] resolved against the calling thread. *)
Definition resolveType (self : BoundMethodBase) : Prog ConnectionType :=
  let type := connectionType_ self in
  if type =? ConnectionTypeAuto then
    cur ← Thread_current;
    thr ← Object_thread (object_ self);
    if Nat.eqb cur thr then mret ConnectionTypeDirect
    else mret ConnectionTypeQueued
  else mret type.

(** The [switch] of [activatePack] on the resolved type. *)
Definition dispatch (self : BoundMethodBase) (pack : PackId)
    (deleteMethod : bool) (type : ConnectionType) : Prog bool :=
  if type =? ConnectionTypeQueued then
    let msg := {| method_ := self; pack_ := pack; semaphore_ := None;
                  deleteMethod_ := deleteMethod |} in
    Object_postMessage (object_ self) msg;;
    mret false
  else if type =? ConnectionTypeBlocking then
    semaphore ← Semaphore_new;
    let msg := {| method_ := self; pack_ := pack;
                  semaphore_ := Some semaphore;
                  deleteMethod_ := deleteMethod |} in
    Object_postMessage (object_ self) msg;;
    Semaphore_acquire semaphore;;
    mret true
  else
    (* case ConnectionTypeDirect: default: *)
    invokePack self pack;;
    (if deleteMethod then delete_this self else mret tt);;
    mret true.

(** [bool BoundMethodBase::activatePack(std::shared_ptr<BoundMethodPackBase>
    pack, bool deleteMethod)]. *)
Definition activatePack (self : BoundMethodBase) (pack : PackId)
    (deleteMethod : bool) : Prog bool :=
  type ← resolveType self;
  dispatch self pack deleteMethod type.

(** The value of [type] when control reaches the [switch]. *)
Definition effectiveType (env : Env) (self : BoundMethodBase) : ConnectionType :=
  (effects env (resolveType self)).2.

(** The calls of the [default] branch. *)
Definition directEffects (self : BoundMethodBase) (pack : PackId)
    (deleteMethod : bool) : list Effect :=
  EInvokePack self pack :: (if deleteMethod then [EDeleteMethod self] else []).

Definition is_acquire (e : Effect) : bool :=
  match e with ESemaphoreAcquire _ => true | _ => false end.

(** A call is diagnosed when it logs (an assertion failure is a Fatal log
    message), and it blocks the caller when it acquires a semaphore. *)
Definition diagnosed (env : Env) (self : BoundMethodBase) (pack : PackId)
    (deleteMethod : bool) : bool :=
  existsb is_log (effects env (activatePack self pack deleteMethod)).1.

Definition blocks (env : Env) (self : BoundMethodBase) (pack : PackId)
    (deleteMethod : bool) : bool :=
  existsb is_acquire (effects env (activatePack self pack deleteMethod)).1.

Definition is_invoke (e : Effect) : bool :=
  match e with EInvokePack _ _ => true | _ => false end.

Lemma effects_activatePack (env : Env) (self : BoundMethodBase)
    (pack : PackId) (deleteMethod : bool) :
  effects env (activatePack self pack deleteMethod)
  = effects env (dispatch self pack deleteMethod (effectiveType env self)).
Proof.
  unfold activatePack, effectiveType, resolveType.
  destruct (connectionType_ self =? ConnectionTypeAuto); [|reflexivity].
  cbn. destruct (Nat.eqb _ _); reflexivity.
Qed.

Lemma effectiveType_stored (env : Env) (self : BoundMethodBase) :
  connectionType_ self <> ConnectionTypeAuto ->
  effectiveType env self = connectionType_ self.
Proof.
  intros H. unfold effectiveType, resolveType.
  apply Z.eqb_neq in H. rewrite H. reflexivity.
Qed.

Lemma effectiveType_auto (env : Env) (self : BoundMethodBase) :
  connectionType_ self = ConnectionTypeAuto ->
  effectiveType env self
  = if Nat.eqb (current env) (thread_of env (object_ self))
    then ConnectionTypeDirect else ConnectionTypeQueued.
Proof.
  intros H. unfold effectiveType, resolveType. rewrite H. cbn.
  destruct (Nat.eqb _ _); reflexivity.
Qed.

(** C2: when the stored connection type is Auto, the effective type is
    Direct exactly when the caller's current thread is the thread the
    receiver object lives on, and Queued otherwise; the call then takes the
    branch of that type. *)
Theorem activatePack_auto (env : Env) (self : BoundMethodBase)
    (pack : PackId) (deleteMethod : bool) :
  connectionType_ self = ConnectionTypeAuto ->
  (effectiveType env self = ConnectionTypeDirect
   <-> current env = thread_of env (object_ self)) /\
  (effectiveType env self = ConnectionTypeQueued
   <-> current env <> thread_of env (object_ self)) /\
  effects env (activatePack self pack deleteMethod)
  = effects env
      (dispatch self pack deleteMethod
         (if decide (current env = thread_of env (object_ self))
          then ConnectionTypeDirect else ConnectionTypeQueued)).
Proof.
  intros H. rewrite effects_activatePack.
  rewrite (effectiveType_auto env self H).
  destruct (Nat.eqb_spec (current env) (thread_of env (object_ self))) as [E|E];
    destruct (decide (current env = thread_of env (object_ self)));
    repeat split; done.
Qed.

(** C3: with effective type Queued the method is not invoked by the
    caller: the one call made is [postMessage] on the receiver object, of an
    InvokeMessage that carries the pack and no semaphore, and
    [activatePack] returns false. *)
Theorem activatePack_queued (env : Env) (self : BoundMethodBase)
    (pack : PackId) (deleteMethod : bool) :
  effectiveType env self = ConnectionTypeQueued ->
  effects env (activatePack self pack deleteMethod)
  = ([EPostMessage (object_ self)
        {| method_ := self; pack_ := pack; semaphore_ := None;
           deleteMethod_ := deleteMethod |}], false) /\
  existsb is_invoke (effects env (activatePack self pack deleteMethod)).1
  = false.
Proof.
  intros H. rewrite effects_activatePack, H. split; reflexivity.
Qed.

(** The calls of a Direct call. *)
Lemma effects_direct (env : Env) (self : BoundMethodBase)
    (pack : PackId) (deleteMethod : bool) :
  effectiveType env self = ConnectionTypeDirect ->
  effects env (activatePack self pack deleteMethod)
  = (directEffects self pack deleteMethod, true).
Proof.
  intros H. rewrite effects_activatePack, H. unfold directEffects.
  destruct deleteMethod; reflexivity.
Qed.

(** C10: [activatePack] handles every value of the connection type, in
    or out of the range of the enumeration: whenever the type, after Auto
    resolution, is neither Queued nor Blocking, the default branch invokes
    the pack directly and returns true. *)
Theorem activatePack_default (env : Env) (self : BoundMethodBase)
    (pack : PackId) (deleteMethod : bool) :
  (effectiveType env self <> ConnectionTypeQueued ->
   effectiveType env self <> ConnectionTypeBlocking ->
   effects env (activatePack self pack deleteMethod)
   = (directEffects self pack deleteMethod, true)) /\
  (effectiveType env self = ConnectionTypeQueued \/
   effectiveType env self = ConnectionTypeBlocking \/
   effects env (activatePack self pack deleteMethod)
   = (directEffects self pack deleteMethod, true)).
Proof.
  assert (effectiveType env self <> ConnectionTypeQueued ->
          effectiveType env self <> ConnectionTypeBlocking ->
          effects env (activatePack self pack deleteMethod)
          = (directEffects self pack deleteMethod, true)) as Hdefault.
  { intros Hq Hb. rewrite effects_activatePack. unfold dispatch, directEffects.
    apply Z.eqb_neq in Hq, Hb. rewrite Hq, Hb.
    destruct deleteMethod; reflexivity. }
  split; [exact Hdefault|].
  destruct (Z.eq_dec (effectiveType env self) ConnectionTypeQueued); [by left|].
  destruct (Z.eq_dec (effectiveType env self) ConnectionTypeBlocking);
    [by right; left|]. right; right. by apply Hdefault.
Qed.

Lemma effects_blocking (env : Env) (self : BoundMethodBase)
    (pack : PackId) (deleteMethod : bool) :
  effectiveType env self = ConnectionTypeBlocking ->
  effects env (activatePack self pack deleteMethod)
  = ([ESemaphoreNew (next_sem env);
      EPostMessage (object_ self)
        {| method_ := self; pack_ := pack;
           semaphore_ := Some (next_sem env);
           deleteMethod_ := deleteMethod |};
      ESemaphoreAcquire (next_sem env)], true).
Proof.
  intros H. rewrite effects_activatePack, H. reflexivity.
Qed.

(** The environments and bound methods of the examples: the caller runs on
    thread 0; object 0 lives on thread 0 and every other object on
    thread 1. *)
Definition env0 : Env :=
  {| current := O;
     thread_of := fun o => if Nat.eqb o 0 then O else 1%nat;
     next_sem := O |}.

Definition method0 (o : ObjectId) (type : ConnectionType) : BoundMethodBase :=
  {| object_ := o; connectionType_ := type; func_ := fun a => Z.of_nat (length a) |}.

Lemma activatePack_auto_witness :
  effectiveType env0 (method0 0 ConnectionTypeAuto) = ConnectionTypeDirect /\
  effectiveType env0 (method0 1 ConnectionTypeAuto) = ConnectionTypeQueued.
Proof.
  split.
  - apply (proj1 (activatePack_auto env0 (method0 0 ConnectionTypeAuto) 5 false
                    eq_refl)).
    reflexivity.
  - apply (proj1 (proj2 (activatePack_auto env0 (method0 1 ConnectionTypeAuto)
                           5 false eq_refl))).
    simpl. lia.
Defined.

Lemma activatePack_queued_witness :
  effects env0 (activatePack (method0 1 ConnectionTypeAuto) 5 true)
  = ([EPostMessage 1
        {| method_ := method0 1 ConnectionTypeAuto; pack_ := 5;
           semaphore_ := None; deleteMethod_ := true |}], false).
Proof.
  apply (proj1 (activatePack_queued env0 (method0 1 ConnectionTypeAuto) 5 true
                  eq_refl)).
Defined.

Lemma activatePack_default_witness :
  effects env0 (activatePack (method0 1 7) 5 false)
  = ([EInvokePack (method0 1 7) 5], true).
Proof.
  apply (proj1 (activatePack_default env0 (method0 1 7) 5 false));
    vm_compute; lia.
Defined.

(** A Blocking call to object 0 from thread 0, the thread the object
    lives on: nothing is logged, and the caller goes on to acquire the
    semaphore. *)
Lemma blocking_same_thread_undiagnosed :
  connectionType_ (method0 0 ConnectionTypeBlocking) = ConnectionTypeBlocking /\
  current env0 = thread_of env0 (object_ (method0 0 ConnectionTypeBlocking)) /\
  diagnosed env0 (method0 0 ConnectionTypeBlocking) 5 false = false /\
  blocks env0 (method0 0 ConnectionTypeBlocking) 5 false = true.
Proof. repeat split. Qed.

End BoundMethod.

(** ** Threads, message queues and semaphores

    The caller of [activatePack] runs beside the other threads, which
    deliver the messages of their queues and post messages of their own.
    The classes behind the calls of [activatePack] (Semaphore, Object,
    Thread, InvokeMessage) are modelled from the specification. *)

Module Machine.

(** Modelled from the spec: the declaration of BoundMethodPackBase is
    missing; a pack holds a copy of the call arguments and a return value
    slot. *)
Record Pack := { args_ : Args; ret_ : option RetVal }.

(** What a thread did, for the record of an execution. *)
Inductive Event :=
| Logged (t : ThreadId) (category : string) (severity : LogSeverity)
         (text : string)
| Invoked (t : ThreadId) (m : BoundMethodBase) (p : PackId) (v : RetVal)
| Deleted (t : ThreadId) (m : BoundMethodBase)
| Constructed (t : ThreadId) (s : SemId)
| Posted (t : ThreadId) (o : ObjectId) (msg : InvokeMessage)
| Acquired (t : ThreadId) (s : SemId)
| Released (t : ThreadId) (s : SemId).

(** The state of the process: what remains of the call in progress on the
    calling thread, the message queue of every thread, the count of every
    semaphore, the packs (shared between the caller and the messages that
    refer to them) and the events so far. *)
Record State := {
  prog : Prog bool;
  queues : ThreadId -> list InvokeMessage;
  sems : SemId -> nat;
  sem_next : SemId;
  packs : PackId -> Pack;
  history : list Event
}.

Definition set_prog (c : Prog bool) (st : State) : State :=
  {| prog := c; queues := queues st; sems := sems st;
     sem_next := sem_next st; packs := packs st; history := history st |}.

Definition record (e : Event) (st : State) : State :=
  {| prog := prog st; queues := queues st; sems := sems st;
     sem_next := sem_next st; packs := packs st;
     history := history st ++ [e] |}.

Definition set_queue (t : ThreadId) (q : list InvokeMessage) (st : State) : State :=
  {| prog := prog st; queues := <[t := q]> (queues st); sems := sems st;
     sem_next := sem_next st; packs := packs st; history := history st |}.

Definition set_sem (s : SemId) (n : nat) (st : State) : State :=
  {| prog := prog st; queues := queues st; sems := <[s := n]> (sems st);
     sem_next := sem_next st; packs := packs st; history := history st |}.

Definition set_pack (p : PackId) (pk : Pack) (st : State) : State :=
  {| prog := prog st; queues := queues st; sems := sems st;
     sem_next := sem_next st; packs := <[p := pk]> (packs st);
     history := history st |}.

Section Threads.

(** The thread that makes the call, and the thread every object lives on
    (no object is moved while the call is in progress). *)
Variable caller : ThreadId.
Variable thread_of : ObjectId -> ThreadId.

(** [invokePack] run by thread [t]: the bound function is called on the
    arguments of the pack and its return value is stored in the pack, as the
    documentation of [activatePack] says. *)
Definition invoke (t : ThreadId) (m : BoundMethodBase) (p : PackId)
    (st : State) : State :=
  let v := func_ m (args_ (packs st p)) in
  record (Invoked t m p v)
    (set_pack p {| args_ := args_ (packs st p); ret_ := Some v |} st).

(** Modelled from the spec: the Semaphore class is missing; a counting
    wait/signal primitive, constructed with count 0, whose [release] adds
    one to the count. *)
Definition semaphore_new (t : ThreadId) (st : State) : SemId * State :=
  let s := sem_next st in
  (s, record (Constructed t s)
        {| prog := prog st; queues := queues st;
           sems := <[s := O]> (sems st); sem_next := S s;
           packs := packs st; history := history st |}).

(** Modelled from the spec: Semaphore::release is missing; it adds one to
    the count. *)
Definition semaphore_release (t : ThreadId) (s : SemId) (st : State) : State :=
  record (Released t s) (set_sem s (S (sems st s)) st).

(** Modelled from the spec: Semaphore::acquire is missing; it blocks the
    caller until the count is positive and takes one from it.  [None] is a
    caller that stays blocked. *)
Definition semaphore_acquire (t : ThreadId) (s : SemId) (st : State)
    : option State :=
  match sems st s with
  | O => None
  | S n => Some (record (Acquired t s) (set_sem s n st))
  end.

(** Modelled from the spec: Object::postMessage is missing; it enqueues the
    message at the back of the queue of the thread that owns the object. *)
Definition postMessage (t : ThreadId) (o : ObjectId) (msg : InvokeMessage)
    (st : State) : State :=
  record (Posted t o msg)
    (set_queue (thread_of o) (queues st (thread_of o) ++ [msg]) st).

(** One step of the call in progress on the calling thread; [None] when the
    call has returned or is blocked. *)
Definition caller_step (st : State) : option State :=
  match prog st with
  | Ret _ => None
  | Log cat sev text k => Some (set_prog k (record (Logged caller cat sev text) st))
  | ThreadCurrent k => Some (set_prog (k caller) st)
  | ObjectThread o k => Some (set_prog (k (thread_of o)) st)
  | InvokePack m p k => Some (set_prog k (invoke caller m p st))
  | DeleteMethod m k => Some (set_prog k (record (Deleted caller m) st))
  | SemaphoreNew k =>
      let '(s, st') := semaphore_new caller st in Some (set_prog (k s) st')
  | PostMessage o msg k => Some (set_prog k (postMessage caller o msg st))
  | SemaphoreAcquire s k => set_prog k <$> semaphore_acquire caller s st
  end.

(** Modelled from the spec: the message loop of Thread and Object is
    missing; a thread takes the message at the front of its queue, invokes
    the bound method the InvokeMessage carries, releases the attached
    semaphore, if present, immediately after the call returns, and frees a
    one-shot bound method after execution.  [None] when the queue is
    empty. *)
Definition deliver (t : ThreadId) (st : State) : option State :=
  match queues st t with
  | [] => None
  | msg :: rest =>
      let st := set_queue t rest st in
      let st := invoke t (method_ msg) (pack_ msg) st in
      let st := match semaphore_ msg with
                | Some s => semaphore_release t s st
                | None => st
                end in
      Some (if deleteMethod_ msg then record (Deleted t (method_ msg)) st
            else st)
  end.

(** The scheduler picks the calling thread, or the event loop of another
    thread, or a [postMessage] that another thread makes meanwhile; the
    calling thread is inside the call and does not run its event loop.  A
    pick that cannot step leaves the state as it is. *)
Inductive Choice :=
| RunCaller
| RunThread (t : ThreadId)
| RunPost (t : ThreadId) (o : ObjectId) (msg : InvokeMessage).

Definition sched_step (st : State) (c : Choice) : State :=
  match c with
  | RunCaller => default st (caller_step st)
  | RunThread t =>
      if decide (t = caller) then st else default st (deliver t st)
  | RunPost t o msg =>
      if decide (t = caller) then st else postMessage t o msg st
  end.

Definition run (sched : list Choice) (st : State) : State :=
  foldl sched_step st sched.

End Threads.

(** *** Direct and Queued calls *)

Section DirectAndQueued.

Variable caller : ThreadId.
Variable thread_of : ObjectId -> ThreadId.
Variable self : BoundMethodBase.
Variable pack : PackId.
Variable deleteMethod : bool.

Local Abbreviation effectiveType st :=
  (BoundMethod.effectiveType (Build_Env caller thread_of (sem_next st)) self).

(** The caller alone runs, for as many steps as any call that does not
    block takes. *)
Definition caller_alone : list Choice := replicate 4 RunCaller.

(** The program of a call whose effective type is [type]. *)
Lemma activatePack_resolved (st : State) :
  run caller thread_of caller_alone
    (set_prog (BoundMethod.activatePack self pack deleteMethod) st)
  = run caller thread_of caller_alone
      (set_prog (BoundMethod.dispatch self pack deleteMethod (effectiveType st))
         st).
Proof.
  unfold BoundMethod.activatePack, BoundMethod.effectiveType,
    BoundMethod.resolveType.
  destruct (connectionType_ self =? ConnectionTypeAuto); [|reflexivity].
  cbn -[BoundMethod.dispatch].
  destruct (Nat.eqb caller (thread_of (object_ self)));
    cbn; destruct deleteMethod; reflexivity.
Qed.

(** A Direct call, run on the machine: when the call has returned, the
    calling thread has invoked the method and the pack holds the value. *)
Lemma direct_call_run (st : State) :
  effectiveType st = ConnectionTypeDirect ->
  let st' := run caller thread_of caller_alone
               (set_prog (BoundMethod.activatePack self pack deleteMethod) st) in
  let v := func_ self (args_ (packs st pack)) in
  prog st' = Ret true /\
  ret_ (packs st' pack) = Some v /\
  queues st' = queues st /\
  history st'
  = history st ++ Invoked caller self pack v
                  :: (if deleteMethod then [Deleted caller self] else []).
Proof.
  intros H. cbv zeta. rewrite activatePack_resolved, H.
  destruct deleteMethod; cbn; rewrite fn_lookup_insert, <- ?app_assoc; done.
Qed.

(** A Queued call, run on the machine: when the call has returned, the
    message is at the back of the queue of the thread of the receiver, and
    nothing has been invoked: the pack is as it was. *)
Lemma queued_call_run (st : State) :
  effectiveType st = ConnectionTypeQueued ->
  let st' := run caller thread_of caller_alone
               (set_prog (BoundMethod.activatePack self pack deleteMethod) st) in
  let msg := {| method_ := self; pack_ := pack; semaphore_ := None;
                deleteMethod_ := deleteMethod |} in
  prog st' = Ret false /\
  packs st' = packs st /\
  queues st' (thread_of (object_ self))
  = queues st (thread_of (object_ self)) ++ [msg] /\
  history st' = history st ++ [Posted caller (object_ self) msg].
Proof.
  intros H. cbv zeta. rewrite activatePack_resolved, H.
  cbn. rewrite fn_lookup_insert. done.
Qed.

(** C4: with effective type Direct the bound method is invoked through
    [invokePack] by the caller itself, before [activatePack] returns, and
    [activatePack] returns true: run by the calling thread alone the call
    returns, the one invocation is on the calling thread and the pack holds
    its return value. *)
Theorem activatePack_direct (st : State) :
  effectiveType st = ConnectionTypeDirect ->
  effects (Build_Env caller thread_of (sem_next st))
    (BoundMethod.activatePack self pack deleteMethod)
  = (BoundMethod.directEffects self pack deleteMethod, true) /\
  let st' := run caller thread_of caller_alone
               (set_prog (BoundMethod.activatePack self pack deleteMethod) st) in
  let v := func_ self (args_ (packs st pack)) in
  prog st' = Ret true /\
  ret_ (packs st' pack) = Some v /\
  queues st' = queues st /\
  history st'
  = history st ++ Invoked caller self pack v
                  :: (if deleteMethod then [Deleted caller self] else []).
Proof.
  intros H. split.
  - by apply BoundMethod.effects_direct.
  - by apply direct_call_run.
Qed.

End DirectAndQueued.

(** *** A Blocking call in progress *)

Section BlockingCall.

Variable caller : ThreadId.
Variable thread_of : ObjectId -> ThreadId.
Variable self : BoundMethodBase.
Variable pack : PackId.
Variable deleteMethod : bool.
(** The pack as the caller passes it in, and the identity of the next
    semaphore to be constructed when the call starts. *)
Variable pack0 : Pack.
Variable sem0 : SemId.

Local Abbreviation target := (thread_of (object_ self)).
Local Abbreviation value0 := (func_ self (args_ pack0)).
Local Abbreviation step := (sched_step caller thread_of).

(** What the call observes when it starts. *)
Definition call_env : Env := Build_Env caller thread_of sem0.

(** The InvokeMessage [activatePack] builds. *)
Definition message (sem : option SemId) : InvokeMessage :=
  {| method_ := self; pack_ := pack; semaphore_ := sem;
     deleteMethod_ := deleteMethod |}.

(** A message of another call: it refers neither to the pack of this call
    nor to its semaphore. *)
Definition foreign (msg : InvokeMessage) : Prop :=
  pack_ msg <> pack /\ semaphore_ msg <> Some sem0.

(** A message that was queued before the call: it does not refer to the
    pack, and its semaphore, if any, was constructed before. *)
Definition earlier (msg : InvokeMessage) : Prop :=
  pack_ msg <> pack /\ forall s, semaphore_ msg = Some s -> (s < sem0)%nat.

(** What the other threads post while the call is in progress belongs to
    other calls. *)
Definition allowed (c : Choice) : Prop :=
  match c with
  | RunPost _ _ msg => foreign msg
  | _ => True
  end.

(** The state in which the call [c] starts. *)
Definition starts (c : Prog bool) (st : State) : Prop :=
  prog st = c /\ packs st pack = pack0 /\ sem_next st = sem0 /\
  history st = [] /\ forall t, Forall earlier (queues st t).

(** The program left after the semaphore [s] is constructed, and after the
    message is posted. *)
Definition posting (s : SemId) : Prog bool :=
  PostMessage (object_ self) (message (Some s))
    (SemaphoreAcquire s (Ret true)).
Definition waiting (s : SemId) : Prog bool := SemaphoreAcquire s (Ret true).

(** The stages of a Blocking call. *)
Inductive Phase (st : State) : Prop :=
| Started :
    prog st = SemaphoreNew posting ->
    packs st pack = pack0 ->
    sem_next st = sem0 ->
    (forall t, Forall foreign (queues st t)) ->
    Phase st
| Posting :
    prog st = posting sem0 ->
    packs st pack = pack0 ->
    sems st sem0 = O ->
    (forall t, Forall foreign (queues st t)) ->
    Phase st
| Waiting (q q' : list InvokeMessage) :
    prog st = waiting sem0 ->
    packs st pack = pack0 ->
    sems st sem0 = O ->
    queues st target = q ++ message (Some sem0) :: q' ->
    Forall foreign q ->
    Forall foreign q' ->
    (forall t, t <> target -> Forall foreign (queues st t)) ->
    Phase st
| Executed (h1 h2 : list Event) :
    prog st = waiting sem0 ->
    packs st pack = {| args_ := args_ pack0; ret_ := Some value0 |} ->
    sems st sem0 = 1%nat ->
    (forall t, Forall foreign (queues st t)) ->
    target <> caller ->
    history st
    = h1 ++ [Invoked target self pack value0; Released target sem0] ++ h2 ->
    Phase st
| Returned (h1 h2 h3 : list Event) :
    prog st = Ret true ->
    packs st pack = {| args_ := args_ pack0; ret_ := Some value0 |} ->
    (forall t, Forall foreign (queues st t)) ->
    target <> caller ->
    history st
    = h1 ++ [Invoked target self pack value0; Released target sem0] ++ h2
         ++ [Acquired caller sem0] ++ h3 ->
    Phase st.

Lemma earlier_foreign (msg : InvokeMessage) : earlier msg -> foreign msg.
Proof.
  intros [Hp Hs]. split; [done|]. intros E. apply Hs in E. lia.
Qed.

(** What the delivery of a message leaves as it was. *)
Lemma deliver_frame (t : ThreadId) (st st' : State) (msg : InvokeMessage)
    (rest : list InvokeMessage) :
  queues st t = msg :: rest ->
  deliver t st = Some st' ->
  prog st' = prog st /\
  queues st' = <[t := rest]> (queues st) /\
  sem_next st' = sem_next st /\
  (pack_ msg <> pack -> packs st' pack = packs st pack) /\
  (forall s, semaphore_ msg <> Some s -> sems st' s = sems st s) /\
  exists h, history st' = history st ++ h.
Proof.
  intros Hq. unfold deliver. rewrite Hq. intros [= <-].
  destruct (semaphore_ msg) as [s'|], (deleteMethod_ msg); cbn;
    repeat split; try done.
  all: try (intros Hp; by rewrite fn_lookup_insert_ne).
  all: try (intros s Hs; rewrite fn_lookup_insert_ne; [done|congruence]).
  all: rewrite <- ?app_assoc; eauto.
Qed.

(** The delivery of the message of this call. *)
Lemma deliver_own (st st' : State) (s : SemId) (rest : list InvokeMessage) :
  queues st target = message (Some s) :: rest ->
  packs st pack = pack0 ->
  deliver target st = Some st' ->
  prog st' = prog st /\
  queues st' = <[target := rest]> (queues st) /\
  sems st' s = S (sems st s) /\
  packs st' pack = {| args_ := args_ pack0; ret_ := Some value0 |} /\
  exists h, history st'
            = history st
              ++ [Invoked target self pack value0; Released target s] ++ h.
Proof.
  intros Hq Hp. unfold deliver. rewrite Hq. intros [= <-].
  destruct deleteMethod; cbn; rewrite !fn_lookup_insert, ?Hp;
    repeat split; try done; rewrite <- ?app_assoc; cbn; eauto.
Qed.

Lemma queues_insert_Forall (P : InvokeMessage -> Prop) (st : State)
    (t : ThreadId) (msg : InvokeMessage) (rest : list InvokeMessage) :
  queues st t = msg :: rest ->
  (forall u, Forall P (queues st u)) ->
  forall u, Forall P (<[t := rest]> (queues st) u).
Proof.
  intros Hq Hall u. destruct (decide (t = u)) as [<-|Hne].
  - rewrite fn_lookup_insert. specialize (Hall t). rewrite Hq in Hall.
    by inversion Hall.
  - rewrite fn_lookup_insert_ne by done. apply Hall.
Qed.

Lemma deliver_Some_cons (t : ThreadId) (st st' : State) :
  deliver t st = Some st' ->
  exists msg rest, queues st t = msg :: rest.
Proof.
  unfold deliver. destruct (queues st t) as [|msg rest]; [done|eauto].
Qed.

Lemma phase_caller (st : State) :
  Phase st -> Phase (step st RunCaller).
Proof.
  intros H. cbn [sched_step]. unfold caller_step.
  destruct H as [Hc Hp Hn Hq | Hc Hp Hs Hq | q q' Hc Hp Hs Hq Hf Hf' Ho
                 | h1 h2 Hc Hp Hs Hq Hne Hh | h1 h2 h3 Hc Hp Hq Hne Hh].
  - rewrite Hc. cbn. rewrite Hn. apply Posting; cbn; try done.
    apply fn_lookup_insert.
  - rewrite Hc. cbn. apply (Waiting _ (queues st target) []); cbn; try done.
    + apply fn_lookup_insert.
    + intros t Ht. rewrite fn_lookup_insert_ne by done. apply Hq.
  - rewrite Hc. cbn. unfold semaphore_acquire. rewrite Hs. cbn.
    by apply (Waiting _ q q').
  - rewrite Hc. cbn. unfold semaphore_acquire. rewrite Hs. cbn.
    apply (Returned _ h1 h2 []); cbn; try done.
    rewrite Hh, <- !app_assoc. reflexivity.
  - rewrite Hc. cbn. by apply (Returned _ h1 h2 h3).
Qed.

Lemma phase_thread (st : State) (t : ThreadId) :
  Phase st -> Phase (step st (RunThread t)).
Proof.
  intros H. cbn [sched_step].
  destruct (decide (t = caller)) as [->|Hne]; [done|].
  destruct (deliver t st) as [st'|] eqn:Hd; cbn; [|done].
  destruct (deliver_Some_cons _ _ _ Hd) as (msg & rest & Hm).
  destruct (deliver_frame t st st' msg rest Hm Hd)
    as (Fc & Fq & Fn & Fp & Fs & h & Fh).
  destruct H as [Hc Hp Hn Hq | Hc Hp Hs Hq | q q' Hc Hp Hs Hq Hf Hf' Ho
                 | h1 h2 Hc Hp Hs Hq Hnc Hh | h1 h2 h3 Hc Hp Hq Hnc Hh].
  - assert (foreign msg) as [Hmp Hms].
    { specialize (Hq t). rewrite Hm in Hq. by inversion Hq. }
    apply Started.
    + congruence.
    + rewrite Fp; done.
    + congruence.
    + rewrite Fq. by apply (queues_insert_Forall _ st t msg rest).
  - assert (foreign msg) as [Hmp Hms].
    { specialize (Hq t). rewrite Hm in Hq. by inversion Hq. }
    apply Posting.
    + congruence.
    + rewrite Fp; done.
    + rewrite Fs; done.
    + rewrite Fq. by apply (queues_insert_Forall _ st t msg rest).
  - destruct (decide (t = target)) as [->|Hnt].
    + rewrite Hm in Hq. destruct q as [|m q]; cbn in Hq.
      * injection Hq as -> ->.
        destruct (deliver_own st st' sem0 q' Hm Hp Hd)
          as (_ & _ & Os & Op & h' & Oh).
        apply (Executed _ (history st) h'); try done.
        -- congruence.
        -- by rewrite Os, Hs.
        -- intros u. rewrite Fq. destruct (decide (target = u)) as [<-|Hu].
           ++ by rewrite fn_lookup_insert.
           ++ rewrite fn_lookup_insert_ne by done. by apply Ho.
      * injection Hq as -> ->. inversion Hf as [|? ? [Hmp Hms] Hf'']; subst.
        apply (Waiting _ q q').
        -- congruence.
        -- rewrite Fp; done.
        -- rewrite Fs; done.
        -- rewrite Fq. apply fn_lookup_insert.
        -- done.
        -- done.
        -- intros u Hu. rewrite Fq, fn_lookup_insert_ne by done. by apply Ho.
    + assert (foreign msg) as [Hmp Hms].
      { specialize (Ho t Hnt). rewrite Hm in Ho. by inversion Ho. }
      apply (Waiting _ q q').
      * congruence.
      * rewrite Fp; done.
      * rewrite Fs; done.
      * rewrite Fq, fn_lookup_insert_ne by done. done.
      * done.
      * done.
      * intros u Hu. rewrite Fq. destruct (decide (t = u)) as [<-|Htu].
        -- rewrite fn_lookup_insert. specialize (Ho t Hnt).
           rewrite Hm in Ho. by inversion Ho.
        -- rewrite fn_lookup_insert_ne by done. by apply Ho.
  - assert (foreign msg) as [Hmp Hms].
    { specialize (Hq t). rewrite Hm in Hq. by inversion Hq. }
    apply (Executed _ h1 (h2 ++ h)); try done.
    + congruence.
    + rewrite Fp; done.
    + rewrite Fs; done.
    + rewrite Fq. by apply (queues_insert_Forall _ st t msg rest).
    + rewrite Fh, Hh, <- !app_assoc. reflexivity.
  - assert (foreign msg) as [Hmp Hms].
    { specialize (Hq t). rewrite Hm in Hq. by inversion Hq. }
    apply (Returned _ h1 h2 (h3 ++ h)); try done.
    + congruence.
    + rewrite Fp; done.
    + rewrite Fq. by apply (queues_insert_Forall _ st t msg rest).
    + rewrite Fh, Hh, <- !app_assoc. reflexivity.
Qed.

Lemma post_Forall (st : State) (u : ThreadId) (msg : InvokeMessage) :
  foreign msg ->
  (forall t, Forall foreign (queues st t)) ->
  forall t, Forall foreign (<[u := queues st u ++ [msg]]> (queues st) t).
Proof.
  intros Hm Hq t. destruct (decide (u = t)) as [<-|Hne].
  - rewrite fn_lookup_insert. apply Forall_app. split; [apply Hq|].
    by constructor.
  - rewrite fn_lookup_insert_ne by done. apply Hq.
Qed.

Lemma phase_post (st : State) (t : ThreadId) (o : ObjectId)
    (msg : InvokeMessage) :
  foreign msg -> Phase st -> Phase (step st (RunPost t o msg)).
Proof.
  intros Hm H. cbn [sched_step].
  destruct (decide (t = caller)) as [->|Hne]; [done|].
  destruct H as [Hc Hp Hn Hq | Hc Hp Hs Hq | q q' Hc Hp Hs Hq Hf Hf' Ho
                 | h1 h2 Hc Hp Hs Hq Hnc Hh | h1 h2 h3 Hc Hp Hq Hnc Hh].
  - apply Started; cbn; try done. by apply post_Forall.
  - apply Posting; cbn; try done. by apply post_Forall.
  - destruct (decide (thread_of o = target)) as [E|E].
    + apply (Waiting _ q (q' ++ [msg])); cbn; try done.
      * rewrite E, fn_lookup_insert, Hq, <- app_assoc. reflexivity.
      * apply Forall_app. split; [done|]. by constructor.
      * intros u Hu. rewrite E, fn_lookup_insert_ne by done. by apply Ho.
    + apply (Waiting _ q q'); cbn; try done.
      * by rewrite fn_lookup_insert_ne.
      * intros u Hu. destruct (decide (thread_of o = u)) as [<-|Hou].
        -- rewrite fn_lookup_insert. apply Forall_app.
           split; [by apply Ho|]. by constructor.
        -- rewrite fn_lookup_insert_ne by done. by apply Ho.
  - apply (Executed _ h1 (h2 ++ [Posted t o msg])); cbn; try done.
    + by apply post_Forall.
    + rewrite Hh, <- !app_assoc. reflexivity.
  - apply (Returned _ h1 h2 (h3 ++ [Posted t o msg])); cbn; try done.
    + by apply post_Forall.
    + rewrite Hh, <- !app_assoc. reflexivity.
Qed.

Lemma phase_run (sched : list Choice) (st : State) :
  Forall allowed sched -> Phase st -> Phase (run caller thread_of sched st).
Proof.
  revert st. induction sched as [|c sched IH]; intros st Ha H; [done|].
  inversion Ha as [|? ? Hc Hrest]; subst.
  cbn. apply IH; [done|].
  destruct c; [by apply phase_caller | by apply phase_thread
              | by apply phase_post].
Qed.

(** A Blocking call is, from its first step, the construction of a
    semaphore followed by [posting]. *)
Lemma blocking_call_prog :
  connectionType_ self = ConnectionTypeBlocking ->
  BoundMethod.activatePack self pack deleteMethod = SemaphoreNew posting.
Proof.
  intros H. unfold BoundMethod.activatePack, BoundMethod.resolveType.
  rewrite H. reflexivity.
Qed.

Lemma starts_phase (st : State) :
  connectionType_ self = ConnectionTypeBlocking ->
  starts (BoundMethod.activatePack self pack deleteMethod) st ->
  Phase st.
Proof.
  intros H (Hc & Hp & Hn & _ & Hq). apply Started; try done.
  - by rewrite Hc, blocking_call_prog.
  - intros t. eapply List.Forall_impl; [intros m; apply earlier_foreign | apply Hq].
Qed.

Lemma run_app (s1 s2 : list Choice) (st : State) :
  run caller thread_of (s1 ++ s2) st
  = run caller thread_of s2 (run caller thread_of s1 st).
Proof. apply foldl_app. Qed.

Lemma deliver_releases (t : ThreadId) (st st' : State) (msg : InvokeMessage)
    (rest : list InvokeMessage) (s : SemId) :
  queues st t = msg :: rest ->
  semaphore_ msg = Some s ->
  deliver t st = Some st' ->
  sems st' s = S (sems st s).
Proof.
  intros Hq Hs. unfold deliver. rewrite Hq, Hs. intros [= <-].
  destruct (deleteMethod_ msg); cbn; apply fn_lookup_insert.
Qed.

Lemma step_thread_deliver (t : ThreadId) (st st' : State) :
  t <> caller -> deliver t st = Some st' -> step st (RunThread t) = st'.
Proof.
  intros Hne Hd. cbn. destruct (decide (t = caller)); [done|].
  by rewrite Hd.
Qed.

(** Once the message is posted, the target thread gets to it after the
    messages queued before it. *)
Lemma drain (q : list InvokeMessage) (st : State) :
  target <> caller ->
  prog st = waiting sem0 ->
  sems st sem0 = O ->
  queues st target = q ++ [message (Some sem0)] ->
  Forall foreign q ->
  prog (run caller thread_of (replicate (S (length q)) (RunThread target)) st)
  = waiting sem0 /\
  sems (run caller thread_of (replicate (S (length q)) (RunThread target)) st)
    sem0 = 1%nat.
Proof.
  intros Hne. revert st.
  induction q as [|m q IH]; intros st Hc Hs Hq Hf;
    destruct (deliver target st) as [st'|] eqn:Hd;
    try (unfold deliver in Hd; by rewrite Hq in Hd);
    cbn [length replicate run foldl];
    rewrite (step_thread_deliver target st st' Hne Hd).
  - destruct (deliver_frame _ _ _ _ _ Hq Hd) as (Fc & _).
    pose proof (deliver_releases _ _ _ _ _ sem0 Hq eq_refl Hd) as Os.
    cbn. split; congruence.
  - destruct (deliver_frame _ _ _ _ _ Hq Hd) as (Fc & Fq & _ & _ & Fs & _).
    inversion Hf as [|? ? [_ Hms] Hf']; subst.
    apply (IH st').
    + congruence.
    + rewrite Fs; done.
    + rewrite Fq. apply fn_lookup_insert.
    + done.
Qed.

(** The schedule that lets the call return: the caller constructs the
    semaphore and posts, the target thread delivers the messages queued
    before and then the one of this call, and the caller acquires. *)
Definition fair_schedule (st : State) : list Choice :=
  [RunCaller; RunCaller]
  ++ replicate (S (length (queues st target))) (RunThread target)
  ++ [RunCaller].

Lemma fair_schedule_allowed (st : State) : Forall allowed (fair_schedule st).
Proof.
  unfold fair_schedule. repeat (apply Forall_app; split).
  - by repeat constructor.
  - by apply Forall_replicate.
  - by repeat constructor.
Qed.

Lemma blocking_returns (st : State) :
  connectionType_ self = ConnectionTypeBlocking ->
  starts (BoundMethod.activatePack self pack deleteMethod) st ->
  target <> caller ->
  prog (run caller thread_of (fair_schedule st) st) = Ret true.
Proof.
  intros H (Hc & Hp & Hn & _ & Hq) Hne.
  rewrite blocking_call_prog in Hc by done.
  unfold fair_schedule. rewrite run_app.
  set (st2 := run caller thread_of [RunCaller; RunCaller] st).
  assert (prog st2 = waiting sem0 /\ sems st2 sem0 = O /\
          queues st2 target = queues st target ++ [message (Some sem0)])
    as (Hc2 & Hs2 & Hq2).
  { unfold st2. cbn. unfold caller_step. rewrite Hc. cbn. rewrite Hn.
    repeat split; apply fn_lookup_insert. }
  rewrite run_app.
  destruct (drain (queues st target) st2 Hne Hc2 Hs2 Hq2) as [Hc3 Hs3].
  { eapply List.Forall_impl; [intros m; apply earlier_foreign | apply Hq]. }
  set (st3 := run caller thread_of (replicate _ _) st2) in *.
  clearbody st3. cbn. unfold caller_step. rewrite Hc3. cbn.
  unfold semaphore_acquire. rewrite Hs3. reflexivity.
Qed.

Lemma phase_returned (st : State) (b : bool) :
  Phase st -> prog st = Ret b ->
  b = true /\ target <> caller /\
  ret_ (packs st pack) = Some value0 /\
  exists h1 h2 h3,
    history st
    = h1 ++ [Invoked target self pack value0; Released target sem0] ++ h2
         ++ [Acquired caller sem0] ++ h3.
Proof.
  intros [Hc _ _ _ | Hc _ _ _ | q q' Hc _ _ _ _ _ _
          | h1 h2 Hc _ _ _ _ _ | h1 h2 h3 Hc Hp _ Hne Hh] Hr;
    rewrite Hc in Hr; try discriminate Hr.
  injection Hr as <-. rewrite Hp. repeat split; try done.
  exists h1, h2, h3. exact Hh.
Qed.

Lemma phase_same_thread (st : State) :
  Phase st -> target = caller ->
  prog st = SemaphoreNew posting \/ prog st = posting sem0 \/
  (prog st = waiting sem0 /\ sems st sem0 = O).
Proof.
  intros [Hc _ _ _ | Hc _ _ _ | q q' Hc _ Hs _ _ _ _
          | h1 h2 _ _ _ _ Hne _ | h1 h2 h3 _ _ _ Hne _] E; auto; done.
Qed.

(** C5: a Blocking call constructs a semaphore, posts to the receiver
    object an InvokeMessage that carries the pack and that semaphore, and
    acquires the semaphore.  In every execution in which the call returns
    it returns true, the receiver lives on another thread than the caller,
    that thread has invoked the bound method on the pack and then released
    the semaphore before the caller acquired it, and the return value slot
    of the pack holds the value that invocation produced, whatever the
    other threads deliver and post meanwhile.  When the receiver lives on
    another thread the call does return under the fair schedule. *)
Theorem activatePack_blocking (st : State) :
  connectionType_ self = ConnectionTypeBlocking ->
  starts (BoundMethod.activatePack self pack deleteMethod) st ->
  effects call_env
    (BoundMethod.activatePack self pack deleteMethod)
  = ([ESemaphoreNew sem0;
      EPostMessage (object_ self) (message (Some sem0));
      ESemaphoreAcquire sem0], true) /\
  (forall sched b,
     Forall allowed sched ->
     prog (run caller thread_of sched st) = Ret b ->
     b = true /\ target <> caller /\
     ret_ (packs (run caller thread_of sched st) pack) = Some value0 /\
     exists h1 h2 h3,
       history (run caller thread_of sched st)
       = h1 ++ [Invoked target self pack value0; Released target sem0] ++ h2
            ++ [Acquired caller sem0] ++ h3) /\
  Forall allowed (fair_schedule st) /\
  (target <> caller ->
   prog (run caller thread_of (fair_schedule st) st) = Ret true).
Proof.
  intros H Hst. split; [|split; [|split; [apply fair_schedule_allowed|]]].
  - apply (BoundMethod.effects_blocking
             call_env).
    rewrite BoundMethod.effectiveType_stored; rewrite H; done.
  - intros sched b Ha. apply phase_returned, phase_run, starts_phase; done.
  - by apply blocking_returns.
Qed.

(** C1, as the code has it: a Blocking call whose caller runs on the
    thread the receiver object lives on is not diagnosed.  It makes the
    calls of any Blocking call (construct the semaphore, post the
    InvokeMessage, acquire the semaphore), none of them a log message, and
    in no execution does it return: the message stays in the queue of the
    thread that waits for it. *)
Theorem blocking_same_thread_deadlock (st : State) :
  connectionType_ self = ConnectionTypeBlocking ->
  starts (BoundMethod.activatePack self pack deleteMethod) st ->
  target = caller ->
  effects call_env
    (BoundMethod.activatePack self pack deleteMethod)
  = ([ESemaphoreNew sem0;
      EPostMessage (object_ self) (message (Some sem0));
      ESemaphoreAcquire sem0], true) /\
  forall sched,
    Forall allowed sched ->
    let st' := run caller thread_of sched st in
    (forall b, prog st' <> Ret b) /\
    (prog st' = SemaphoreNew posting \/ prog st' = posting sem0 \/
     (prog st' = waiting sem0 /\ sems st' sem0 = O)).
Proof.
  intros H Hst E. split.
  - apply (BoundMethod.effects_blocking
             call_env).
    rewrite BoundMethod.effectiveType_stored; rewrite H; done.
  - intros sched Ha st'.
    assert (Phase st') as Hph by (apply phase_run, starts_phase; done).
    pose proof (phase_same_thread st' Hph E) as Hs. split; [|done].
    intros b Hb. destruct Hs as [Hs|[Hs|[Hs _]]]; rewrite Hs in Hb; done.
Qed.

End BlockingCall.

(** An example: the caller runs on thread 0 and calls, with pack 5, a
    method bound to object [o]; a message of an earlier call is in the queue
    of thread 1; two semaphores were constructed before. *)
Definition example_state (self : BoundMethodBase) : State :=
  {| prog := BoundMethod.activatePack self 5 false;
     queues := fun t =>
       if Nat.eqb t 1
       then [ {| method_ := BoundMethod.method0 1 ConnectionTypeQueued;
                 pack_ := 4; semaphore_ := Some 1%nat;
                 deleteMethod_ := true |} ]
       else [];
     sems := fun _ => O;
     sem_next := 2;
     packs := fun _ => {| args_ := [10; 20]; ret_ := None |};
     history := [] |}.

Lemma example_starts (self : BoundMethodBase) :
  starts 5 {| args_ := [10; 20]; ret_ := None |} 2
    (BoundMethod.activatePack self 5 false) (example_state self).
Proof.
  repeat split. intros t. cbn. destruct (Nat.eqb t 1); [|constructor].
  constructor; [|constructor].
  split; cbn; [lia | intros s' [= <-]; lia].
Qed.

(** A Direct call from thread 0 to object 1, which lives on thread 1, with
    the method to be deleted: thread 0 invokes it. *)
Lemma activatePack_direct_witness :
  let m := BoundMethod.method0 1 ConnectionTypeDirect in
  let thr := thread_of BoundMethod.env0 in
  let st' := run 0 thr caller_alone (example_state m) in
  effects (Build_Env 0 thr 2) (BoundMethod.activatePack m 5 false)
  = ([EInvokePack m 5], true) /\
  prog st' = Ret true /\
  ret_ (packs st' 5) = Some 2 /\
  queues st' = queues (example_state m) /\
  history st' = [Invoked 0 m 5 2].
Proof.
  intros m thr.
  exact (activatePack_direct 0 thr m 5 false (example_state m) eq_refl).
Defined.

(** A schedule in which thread 1 posts messages of its own while the call
    is in progress, one of them to an object of thread 1 itself. *)
Definition example_schedule : list Choice :=
  let m' := BoundMethod.method0 3 ConnectionTypeQueued in
  [ RunCaller;
    RunPost 1 3 {| method_ := m'; pack_ := 6; semaphore_ := None;
                   deleteMethod_ := false |};
    RunCaller; RunCaller; RunThread 1;
    RunPost 1 0 {| method_ := m'; pack_ := 7; semaphore_ := None;
                   deleteMethod_ := true |};
    RunThread 0; RunThread 1; RunCaller; RunThread 1; RunCaller ].

(** A Blocking call from thread 0 to object 1, which lives on thread 1:
    under the fair schedule, and under the example schedule, the call
    returns true and the pack holds the value of the bound function on the
    arguments [10; 20]. *)
Lemma activatePack_blocking_witness :
  let m := BoundMethod.method0 1 ConnectionTypeBlocking in
  let thr := thread_of BoundMethod.env0 in
  let st := example_state m in
  prog (run 0 thr (fair_schedule thr m st) st) = Ret true /\
  prog (run 0 thr example_schedule st) = Ret true /\
  ret_ (packs (run 0 thr example_schedule st) 5) = Some 2.
Proof.
  intros m thr st.
  destruct (activatePack_blocking 0 thr m 5 false
              {| args_ := [10; 20]; ret_ := None |} 2 st eq_refl
              (example_starts m)) as (_ & Hsafe & _ & Hlive).
  assert (thr (object_ m) <> O) as Hne by (cbn; lia).
  assert (Forall (allowed 5 2) example_schedule) as Ha.
  { unfold example_schedule, allowed, foreign.
    repeat constructor; cbn; (lia || discriminate). }
  split; [exact (Hlive Hne)|].
  split; [reflexivity|].
  exact (proj1 (proj2 (proj2 (Hsafe example_schedule true Ha eq_refl)))).
Defined.

(** A Blocking call from thread 0 to object 0, which lives on thread 0:
    whatever the schedule, the call does not return. *)
Lemma blocking_same_thread_deadlock_witness :
  let m := BoundMethod.method0 0 ConnectionTypeBlocking in
  let thr := thread_of BoundMethod.env0 in
  effects (call_env 0 thr 2) (BoundMethod.activatePack m 5 false)
  = ([ESemaphoreNew 2; EPostMessage 0 (message m 5 false (Some 2%nat));
      ESemaphoreAcquire 2], true) /\
  forall sched,
    Forall (allowed 5 2) sched ->
    let st' := run 0 thr sched (example_state m) in
    (forall b, prog st' <> Ret b) /\
    (prog st' = SemaphoreNew (posting m 5 false) \/
     prog st' = posting m 5 false 2 \/
     (prog st' = waiting 2 /\ sems st' 2 = O)).
Proof.
  intros m thr.
  exact (blocking_same_thread_deadlock 0 thr m 5 false
           {| args_ := [10; 20]; ret_ := None |} 2 (example_state m) eq_refl
           (example_starts m) eq_refl).
Defined.

End Machine.

(** ** The threaded event notifier test (test/event-thread.cpp)

    The test is embedded from its source; the Thread, Object and
    EventNotifier classes it exercises are modelled from the
    specification. *)

Module EventThread.

Import V4L2.

(** The main thread, on which the test runs, and the thread it starts. *)
Definition main_thread : ThreadId := O.
Definition second_thread : ThreadId := 1%nat.

(** [class EventHandler : public Object]: the fields of the handler, with
    the thread the Object lives on and the bytes in flight in its pipe
    (written to [pipefd_[1]] and not yet read from [pipefd_[0]]). *)
Record EventHandler := {
  thread_ : ThreadId;
  pipe_ : list Z;
  notified_ : bool;
  data_ : list Z;
  size_ : Z
}.

(** The state of the test: the handler, once constructed; whether the
    event loop of the second thread runs; the statements of [run] executed
    so far; and the threads on which [readReady] was called, in order. *)
Record State := {
  handler : option EventHandler;
  loop_running : bool;
  pc : nat;
  calls : list ThreadId
}.

(** [EventHandler::EventHandler()]: [notified_] is false, the pipe is
    empty, and the notifier on its read end belongs to the handler, which
    lives on the constructing thread.  The constructor leaves [data_] and
    [size_] as they are in memory. *)
Definition EventHandler_new (t : ThreadId) (data0 : list Z) (size0 : Z)
    : EventHandler :=
  {| thread_ := t; pipe_ := []; notified_ := false;
     data_ := data0; size_ := size0 |}.

(** [write(fd, buf, n)] on a pipe with room for the bytes. *)
Definition pipe_write (bytes : list Z) (h : EventHandler) : EventHandler * Z :=
  ({| thread_ := thread_ h; pipe_ := pipe_ h ++ bytes;
      notified_ := notified_ h; data_ := data_ h; size_ := size_ h |},
   Z.of_nat (length bytes)).

(** Test results. *)
Inductive TestResult := TestPass | TestFail.

(** [int EventHandler::notify()]. *)
Definition notify (h : EventHandler) : EventHandler * TestResult :=
  let data := map chr (String.list_ascii_of_string "H2G2") in
  let h := {| thread_ := thread_ h; pipe_ := pipe_ h;
              notified_ := notified_ h;
              data_ := replicate (length (data_ h)) 0;
              size_ := 0 |} in
  let '(h, ret) := pipe_write data h in
  if ret <? 0 then (h, TestFail) else (h, TestPass).

(** [read(fd, buf, count)] on a pipe that holds data: the first [count]
    bytes at most are taken from the pipe and stored at the start of the
    buffer. *)
Definition pipe_read (count : nat) (buf : list Z) (pipe : list Z)
    : list Z * list Z * Z :=
  let got := take count pipe in
  (got ++ drop (length got) buf, drop count pipe, Z.of_nat (length got)).

(** [void EventHandler::readReady(EventNotifier *notifier)]. *)
Definition readReady (h : EventHandler) : EventHandler :=
  let '(data, pipe, n) := pipe_read (length (data_ h)) (data_ h) (pipe_ h) in
  {| thread_ := thread_ h; pipe_ := pipe; notified_ := true;
     data_ := data; size_ := n |}.

(** Modelled from the spec: Object::moveToThread is missing; it reassigns
    the affinity of the object, so that from then on its notifiers are
    registered with the dispatcher of the new thread; what is pending on
    their file descriptors stays pending. *)
Definition moveToThread (t : ThreadId) (h : EventHandler) : EventHandler :=
  {| thread_ := t; pipe_ := pipe_ h; notified_ := notified_ h;
     data_ := data_ h; size_ := size_ h |}.

(** Modelled from the spec: the event loop of Thread and the poll of
    EventDispatcher are missing; one iteration of the loop of thread [t]
    invokes the callback of every notifier registered with [t] whose file
    descriptor is ready, here the Read notifier of the handler when the
    handler lives on [t] and its pipe holds data. *)
Definition loop_iteration (t : ThreadId) (st : State) : State :=
  match handler st with
  | Some h =>
      if Nat.eqb (thread_ h) t && negb (Nat.eqb (length (pipe_ h)) 0)
      then {| handler := Some (readReady h); loop_running := loop_running st;
              pc := pc st; calls := calls st ++ [t] |}
      else st
  | None => st
  end.

Section Run.

(** What [data_] and [size_] hold before they are first assigned. *)
Variable data0 : list Z.
Variable size0 : Z.

(** The statements of [EventThreadTest::run], after [thread.start()]: the
    construction of the handler, [handler.notify()],
    [handler.moveToThread(&thread)] and, after the sleep,
    [thread.exit(0); thread.wait()].  No event loop runs on the main
    thread. *)
Definition main_step (st : State) : State :=
  match pc st, handler st with
  | O, _ =>
      {| handler := Some (EventHandler_new main_thread data0 size0);
         loop_running := loop_running st; pc := 1; calls := calls st |}
  | 1%nat, Some h =>
      {| handler := Some (notify h).1; loop_running := loop_running st;
         pc := 2; calls := calls st |}
  | 2%nat, Some h =>
      {| handler := Some (moveToThread second_thread h);
         loop_running := loop_running st; pc := 3; calls := calls st |}
  | 3%nat, _ =>
      {| handler := handler st; loop_running := false; pc := 4;
         calls := calls st |}
  | _, _ => st
  end.

(** The state after [thread.start()]. *)
Definition started : State :=
  {| handler := None; loop_running := true; pc := O; calls := [] |}.

(** The scheduler picks the next statement of the main thread or an
    iteration of the event loop of the second thread, which does nothing
    once the loop has exited. *)
Inductive Choice := Main | Loop.

Definition sched_step (st : State) (c : Choice) : State :=
  match c with
  | Main => main_step st
  | Loop => if loop_running st then loop_iteration second_thread st else st
  end.

Definition exec (sched : list Choice) : State := foldl sched_step started sched.

(** The end of [run]: the test passes when [handler.notified()]. *)
Definition result (st : State) : TestResult :=
  match handler st with
  | Some h => if negb (notified_ h) then TestFail else TestPass
  | None => TestFail
  end.

(** The schedules of the test: the loop iterates any number of times
    before each statement of the main thread, and after the last. *)
Definition schedule (n0 n1 n2 n3 n4 : nat) : list Choice :=
  replicate n0 Loop ++ [Main] ++ replicate n1 Loop ++ [Main]
  ++ replicate n2 Loop ++ [Main] ++ replicate n3 Loop ++ [Main]
  ++ replicate n4 Loop.

Lemma loops_idle (n : nat) (st : State) :
  sched_step st Loop = st -> foldl sched_step st (replicate n Loop) = st.
Proof.
  intros H. induction n as [|n IH]; [done|]. cbn [replicate foldl].
  by rewrite H.
Qed.

(** The handler once [readReady] has read the four bytes. *)
Definition handler_notified : EventHandler :=
  {| thread_ := second_thread; pipe_ := []; notified_ := true;
     data_ := map chr (String.list_ascii_of_string "H2G2") ++ replicate 12 0;
     size_ := 4 |}.

(** C6: four bytes are written to the pipe and the handler is then moved
    to the second thread; no dispatcher observes the pending read before
    the move, whatever the number of iterations of the loop of the second
    thread before it.  Once that loop iterates after the move, the read
    callback has run exactly once, on the second thread, and has recorded
    the four bytes; the test passes. *)
Theorem pending_event_survives_move (n0 n1 n2 n3 n4 : nat) :
  length data0 = 16%nat ->
  (1 <= n3)%nat ->
  calls (exec (schedule n0 n1 n2 n3 n4)) = [second_thread] /\
  handler (exec (schedule n0 n1 n2 n3 n4)) = Some handler_notified /\
  result (exec (schedule n0 n1 n2 n3 n4)) = TestPass.
Proof.
  intros Hlen Hn3. destruct n3 as [|k]; [lia|].
  assert (exec (schedule n0 n1 n2 (S k) n4)
          = {| handler := Some handler_notified; loop_running := false;
               pc := 4; calls := [second_thread] |}) as ->; [|done].
  unfold exec, schedule. rewrite !foldl_app.
  rewrite (loops_idle n0) by reflexivity.
  cbn [foldl sched_step]. unfold main_step at 4. cbn [pc started].
  rewrite (loops_idle n1) by reflexivity.
  unfold main_step at 3. cbn [pc handler]. unfold notify.
  cbn [EventHandler_new data_ pipe_ thread_ notified_ pipe_write fst
       app length Z.of_nat Z.ltb Z.compare Pos.of_succ_nat Pos.succ map
       String.list_ascii_of_string].
  rewrite Hlen.
  rewrite (loops_idle n2) by reflexivity.
  unfold main_step at 2. cbn [pc handler moveToThread data_ pipe_ thread_
                              notified_ size_].
  cbn [replicate foldl sched_step loop_running].
  rewrite (loops_idle k) by reflexivity.
  unfold main_step at 1. cbn -[replicate].
  apply loops_idle. reflexivity.
Qed.

End Run.

(** The test with [data_] and [size_] holding 7s and 99 at first, the loop
    iterating twice before the handler is constructed, once before
    [notify], three times before [moveToThread], twice before [exit] and
    once after. *)
Lemma pending_event_survives_move_witness :
  calls (exec (replicate 16 7) 99 (schedule 2 1 3 2 1)) = [second_thread] /\
  handler (exec (replicate 16 7) 99 (schedule 2 1 3 2 1))
  = Some handler_notified /\
  result (exec (replicate 16 7) 99 (schedule 2 1 3 2 1)) = TestPass.
Proof.
  apply (pending_event_survives_move (replicate 16 7) 99 2 1 3 2 1);
    [reflexivity | lia].
Defined.

End EventThread.

(** ** Signals

    The connection list of a signal and its emission are modelled from the
    specification, on top of the resolution of the connection type that
    [activatePack] performs. *)

Module Signal.

Definition SlotId := nat.
Bind Scope nat_scope with SlotId.

(** An entry of the connection list of a signal: the receiver, the bound
    slot and the connection type. *)
Record Connection := {
  receiver : ObjectId;
  slot : SlotId;
  type : ConnectionType
}.

(** Modelled from the spec: Signal::connect and Signal::disconnect are
    missing; [connect] appends an entry (a duplicate is not coalesced),
    [disconnect] removes the entries of the receiver, or of the receiver and
    slot when a slot is given, and is a no-op when there is none. *)
Inductive SignalOp :=
| Connect (c : Connection)
| Disconnect (r : ObjectId) (s : option SlotId).

Definition matches (r : ObjectId) (s : option SlotId) (c : Connection) : bool :=
  Nat.eqb (receiver c) r
  && match s with Some s => Nat.eqb (slot c) s | None => true end.

Definition apply_op (slots : list Connection) (op : SignalOp) : list Connection :=
  match op with
  | Connect c => slots ++ [c]
  | Disconnect r s => filter (fun c => negb (matches r s c)) slots
  end.

(** How a slot was reached by an emission. *)
Inductive Mode := Inline | Posted | PostedAndAwaited.

(** A delivery: the entry, the arguments its pack received, the mode. *)
Record Delivery := {
  to : Connection;
  pack_args : Args;
  mode : Mode
}.

(** The signal and the deliveries made so far. *)
Record World := {
  slots_ : list Connection;
  deliveries : list Delivery
}.

Section Emit.

(** The thread that emits and the thread every object lives on. *)
Variable emitter : ThreadId.
Variable thread_of : ObjectId -> ThreadId.
(** The connects and disconnects made on the signal while the dispatch to
    an entry is in progress, by the slot itself when it runs inline or by
    any other thread. *)
Variable during : Connection -> Args -> list SignalOp.

(** The bound method behind an entry, and its resolved connection type. *)
Definition bound (c : Connection) : BoundMethodBase :=
  {| object_ := receiver c; connectionType_ := type c; func_ := fun _ => 0 |}.

Definition resolved (c : Connection) : ConnectionType :=
  BoundMethod.effectiveType (Build_Env emitter thread_of O) (bound c).

(** Modelled from the spec: the dispatch of Signal::emit to an entry is
    missing; Direct invokes inline, Queued posts and continues without
    waiting, Blocking posts and blocks until the slot completes.  A Blocking
    dispatch to a receiver on the thread of the emitter never completes
    ([None]). *)
Definition dispatch_mode (c : Connection) : option Mode :=
  if resolved c =? ConnectionTypeQueued then Some Posted
  else if resolved c =? ConnectionTypeBlocking then
    if Nat.eqb (thread_of (receiver c)) emitter then None
    else Some PostedAndAwaited
  else Some Inline.

(** Modelled from the spec: the dispatch of Signal::emit to an entry is
    missing; the arguments are copied into a pack of its own, and the
    connection list undergoes what happens meanwhile. *)
Definition dispatch (c : Connection) (args : Args) (w : World) : option World :=
  m ← dispatch_mode c;
  Some {| slots_ := foldl apply_op (slots_ w) (during c args);
          deliveries := deliveries w
                        ++ [{| to := c; pack_args := args; mode := m |}] |}.

Fixpoint dispatch_all (snapshot : list Connection) (args : Args) (w : World)
    : option World :=
  match snapshot with
  | [] => Some w
  | c :: rest => w' ← dispatch c args w; dispatch_all rest args w'
  end.

(** Modelled from the spec: Signal::emit is missing; it takes a snapshot of
    the entries connected when it begins and dispatches to each of them, in
    order.  [None] is an emission that never completes. *)
Definition emit (args : Args) (w : World) : option World :=
  let snapshot := slots_ w in
  dispatch_all snapshot args w.

(** No entry asks for a Blocking dispatch to the thread of the emitter. *)
Definition no_self_blocking (slots : list Connection) : Prop :=
  Forall (fun c => resolved c = ConnectionTypeBlocking ->
                   thread_of (receiver c) <> emitter) slots.

(** The mode in which an entry is reached, by its resolved type. *)
Definition mode_of (c : Connection) : Mode :=
  if resolved c =? ConnectionTypeQueued then Posted
  else if resolved c =? ConnectionTypeBlocking then PostedAndAwaited
  else Inline.

Definition delivery_to (args : Args) (c : Connection) : Delivery :=
  {| to := c; pack_args := args; mode := mode_of c |}.

(** Everything that happens to the connection list during the dispatches
    to the entries [cs]. *)
Definition meanwhile (cs : list Connection) (args : Args) : list SignalOp :=
  concat (map (fun c => during c args) cs).

Lemma dispatch_mode_Some (c : Connection) :
  (resolved c = ConnectionTypeBlocking -> thread_of (receiver c) <> emitter) ->
  dispatch_mode c = Some (mode_of c).
Proof.
  intros H. unfold dispatch_mode, mode_of.
  destruct (resolved c =? ConnectionTypeQueued); [done|].
  destruct (Z.eqb_spec (resolved c) ConnectionTypeBlocking) as [E|E]; [|done].
  destruct (Nat.eqb_spec (thread_of (receiver c)) emitter) as [E'|E']; [|done].
  by destruct (H E).
Qed.

Lemma dispatch_all_snapshot (snapshot : list Connection) (args : Args)
    (w : World) :
  no_self_blocking snapshot ->
  dispatch_all snapshot args w
  = Some {| slots_ := foldl apply_op (slots_ w) (meanwhile snapshot args);
            deliveries := deliveries w ++ map (delivery_to args) snapshot |}.
Proof.
  revert w. induction snapshot as [|c rest IH]; intros w Hs.
  - cbn. rewrite app_nil_r. by destruct w.
  - inversion Hs as [|? ? Hc Hrest]; subst.
    cbn [dispatch_all]. unfold dispatch at 1.
    rewrite (dispatch_mode_Some c Hc). cbn [mbind option_bind].
    rewrite (IH _ Hrest). cbn [slots_ deliveries].
    unfold meanwhile. cbn [map concat].
    rewrite foldl_app, <- app_assoc. reflexivity.
Qed.

Lemma dispatch_all_Some (snapshot : list Connection) (args : Args)
    (w : World) :
  is_Some (dispatch_all snapshot args w) -> no_self_blocking snapshot.
Proof.
  revert w. induction snapshot as [|c rest IH]; intros w H; [constructor|].
  cbn [dispatch_all] in H. unfold dispatch at 1 in H.
  destruct (dispatch_mode c) as [m|] eqn:Hm; cbn in H;
    [|by destruct H].
  constructor; [|by eapply IH].
  intros Hb He. unfold dispatch_mode in Hm. rewrite Hb in Hm. cbn in Hm.
  apply Nat.eqb_eq in He. by rewrite He in Hm.
Qed.

(** C7: an emission delivers the arguments, unmodified, to exactly the
    entries connected when it begins, once each and in order, whatever
    connects and disconnects happen while it is in progress; those only
    change the connection list it leaves for later emissions.  The emission
    completes exactly when no entry asks for a Blocking dispatch to the
    thread of the emitter, which the specification rules out. *)
Theorem emit_snapshot (args : Args) (w : World) :
  (no_self_blocking (slots_ w) <-> is_Some (emit args w)) /\
  forall w',
    emit args w = Some w' ->
    deliveries w' = deliveries w ++ map (delivery_to args) (slots_ w) /\
    slots_ w' = foldl apply_op (slots_ w) (meanwhile (slots_ w) args).
Proof.
  split; [split|].
  - intros H. unfold emit. rewrite (dispatch_all_snapshot _ args w H). eauto.
  - apply dispatch_all_Some.
  - intros w' Hw.
    assert (no_self_blocking (slots_ w)) as H.
    { eapply dispatch_all_Some. unfold emit in Hw. rewrite Hw. eauto. }
    unfold emit in Hw. rewrite (dispatch_all_snapshot _ args w H) in Hw.
    injection Hw as <-. split; reflexivity.
Qed.

End Emit.

(** An emission from thread 0 on a signal with three entries: a Direct one,
    an Auto one whose receiver lives on thread 1, and a Blocking one whose
    receiver lives on thread 1.  While the first slot runs it disconnects
    the second receiver and connects a fourth entry. *)
Definition example_slots : list Connection :=
  [ {| receiver := 0; slot := 0; type := ConnectionTypeDirect |};
    {| receiver := 1; slot := 0; type := ConnectionTypeAuto |};
    {| receiver := 2; slot := 3; type := ConnectionTypeBlocking |} ].

Definition example_during (c : Connection) (args : Args) : list SignalOp :=
  if Nat.eqb (receiver c) 0
  then [Disconnect 1 None;
        Connect {| receiver := 4; slot := 1; type := ConnectionTypeDirect |}]
  else [].

Definition example_world : World :=
  {| slots_ := example_slots; deliveries := [] |}.

Lemma emit_snapshot_witness :
  let thr := thread_of BoundMethod.env0 in
  exists w',
    emit 0 thr example_during [42] example_world = Some w' /\
    deliveries w'
    = [ {| to := {| receiver := 0; slot := 0; type := ConnectionTypeDirect |};
           pack_args := [42]; mode := Inline |};
        {| to := {| receiver := 1; slot := 0; type := ConnectionTypeAuto |};
           pack_args := [42]; mode := Posted |};
        {| to := {| receiver := 2; slot := 3; type := ConnectionTypeBlocking |};
           pack_args := [42]; mode := PostedAndAwaited |} ] /\
    slots_ w'
    = [ {| receiver := 0; slot := 0; type := ConnectionTypeDirect |};
        {| receiver := 2; slot := 3; type := ConnectionTypeBlocking |};
        {| receiver := 4; slot := 1; type := ConnectionTypeDirect |} ].
Proof.
  intros thr.
  pose proof (emit_snapshot 0 thr example_during [42] example_world)
    as [[Hsome _] Hdeliv].
  destruct Hsome as [w' Hw'].
  { unfold no_self_blocking, example_world, example_slots. cbn [slots_].
    constructor; [vm_compute; intros H; discriminate H|].
    constructor; [vm_compute; intros H; discriminate H|].
    constructor; [vm_compute; intros _ H; discriminate H|].
    constructor. }
  exists w'. split; [exact Hw'|]. exact (Hdeliv w' Hw').
Defined.

End Signal.

(** ** Further properties of V4L2PixelFormat *)

Module V4L2Facts.

Import V4L2.

(** [v4l2_fourcc_be(a, b, c, d)] of linux/videodev2.h: the FourCC with the
    big-endian flag, bit 31. *)
Definition v4l2_fourcc_be (a b c d : ascii) : Z :=
  Z.lor (v4l2_fourcc a b c d) (Z.shiftl 1 31).
Arguments v4l2_fourcc_be (a b c d)%_char.

(** The string made of four characters. *)
Definition four_chars (a b c d : ascii) (suffix : string) : string :=
  String a (String b (String c (String d suffix))).

(** A character that [isprint] accepts. *)
Definition printable (a : ascii) : Prop := isprint (chr a) = true.

(** Every character of a string is printable. *)
Definition all_printable (s : string) : bool :=
  forallb (fun a => isprint (chr a)) (String.list_ascii_of_string s).

(** The local array [ss] of [toString] when control reaches the test of
    bit 31: the four masked bytes, the four cells the initializer leaves
    zero, and the replacement loop applied. *)
Definition toString_ss (fourcc : Z) : list Z :=
  foldl toString_fix
    [ Z.land fourcc 127;
      Z.land (Z.shiftr fourcc 8) 127;
      Z.land (Z.shiftr fourcc 16) 127;
      Z.land (Z.shiftr fourcc 24) 127;
      0; 0; 0; 0 ] (seq 0 4).

(** The characters of the literal "-BE". *)
Definition be_suffix : list Z := map chr (String.list_ascii_of_string "-BE").

(** The bits of a FourCC that [toString] reads: all but bits 7, 15 and 23. *)
Definition read_mask : Z := 0xFF7F7F7F.

Lemma chr_range (a : ascii) : 0 <= chr a < 256.
Proof.
  unfold chr. pose proof (N_ascii_bounded a) as H. lia.
Qed.

Lemma chr_char_to_ascii (c : Z) : 0 <= c < 256 -> chr (char_to_ascii c) = c.
Proof.
  intros H. unfold chr, char_to_ascii.
  rewrite N_ascii_embedding by lia. lia.
Qed.

Lemma char_to_ascii_chr (a : ascii) : char_to_ascii (chr a) = a.
Proof.
  unfold chr, char_to_ascii. rewrite N2Z.id. apply ascii_N_embedding.
Qed.

Lemma isprint_range (c : Z) : isprint c = true <-> 32 <= c <= 126.
Proof.
  unfold isprint. rewrite andb_true_iff, !Z.leb_le. tauto.
Qed.

Lemma testbit_small (x n m : Z) :
  0 <= x < 2 ^ n -> 0 <= n <= m -> Z.testbit x m = false.
Proof.
  intros Hx Hn. rewrite <- (Z.mod_small x (2 ^ n)) by lia.
  apply Z.mod_pow2_bits_high. lia.
Qed.

(** A number below [2 ^ n] and a number shifted left by [n] have no bit
    in common: their disjunction is their sum. *)
Lemma lor_shiftl_add (x y n : Z) :
  0 <= x < 2 ^ n -> 0 <= n -> Z.lor x (Z.shiftl y n) = x + y * 2 ^ n.
Proof.
  intros Hx Hn.
  assert (Z.land x (Z.shiftl y n) = 0) as Hland.
  { apply Z.bits_inj'. intros m Hm. rewrite Z.land_spec, Z.bits_0.
    destruct (Z.lt_ge_cases m n) as [Hlt|Hge].
    - rewrite Z.shiftl_spec_low by lia. apply andb_false_r.
    - rewrite (testbit_small x n m) by lia. reflexivity. }
  rewrite <- Z.lxor_lor, <- Z.add_nocarry_lxor by done.
  rewrite Z.shiftl_mul_pow2 by lia. reflexivity.
Qed.

Lemma v4l2_fourcc_sum (a b c d : ascii) :
  v4l2_fourcc a b c d
  = chr a + chr b * 2 ^ 8 + chr c * 2 ^ 16 + chr d * 2 ^ 24.
Proof.
  pose proof (chr_range a). pose proof (chr_range b).
  pose proof (chr_range c). pose proof (chr_range d).
  unfold v4l2_fourcc.
  rewrite (lor_shiftl_add (chr a) (chr b) 8) by lia.
  rewrite (lor_shiftl_add _ (chr c) 16) by lia.
  rewrite (lor_shiftl_add _ (chr d) 24) by lia.
  reflexivity.
Qed.

Lemma masked_byte_div (f i : Z) :
  0 <= i -> masked_byte f i = (f / 2 ^ (8 * i)) mod 128.
Proof.
  intros Hi. unfold masked_byte. change 127 with (Z.ones 7).
  rewrite Z.land_ones, Z.shiftr_div_pow2 by lia. reflexivity.
Qed.

(** The masked bytes of a FourCC, possibly with the big-endian flag, made
    of four 7-bit characters. *)
Lemma fourcc_bytes (a b c d : ascii) (be : Z) :
  chr a < 128 -> chr b < 128 -> chr c < 128 -> chr d < 128 ->
  0 <= be <= 1 ->
  let f := v4l2_fourcc a b c d + be * 2 ^ 31 in
  masked_byte f 0 = chr a /\ masked_byte f 1 = chr b /\
  masked_byte f 2 = chr c /\ masked_byte f 3 = chr d.
Proof.
  intros Ha Hb Hc Hd Hbe f. subst f.
  pose proof (chr_range a). pose proof (chr_range b).
  pose proof (chr_range c). pose proof (chr_range d).
  rewrite !masked_byte_div, v4l2_fourcc_sum by lia.
  change (2 ^ (8 * 0)) with 1. change (2 ^ (8 * 1)) with 256.
  change (2 ^ (8 * 2)) with 65536. change (2 ^ (8 * 3)) with 16777216.
  change (2 ^ 8) with 256. change (2 ^ 16) with 65536.
  change (2 ^ 24) with 16777216. change (2 ^ 31) with 2147483648.
  repeat split; Z.to_euclidean_division_equations; lia.
Qed.

Lemma v4l2_fourcc_be_sum (a b c d : ascii) :
  chr d < 128 ->
  v4l2_fourcc_be a b c d = v4l2_fourcc a b c d + 1 * 2 ^ 31.
Proof.
  intros Hd. unfold v4l2_fourcc_be.
  pose proof (chr_range a). pose proof (chr_range b).
  pose proof (chr_range c). pose proof (chr_range d).
  apply lor_shiftl_add; [|lia]. rewrite v4l2_fourcc_sum.
  change (2 ^ 8) with 256. change (2 ^ 16) with 65536.
  change (2 ^ 24) with 16777216. change (2 ^ 31) with 2147483648. lia.
Qed.

Lemma printable_or_dot_chr (a : ascii) :
  printable a -> printable_or_dot (chr a) = a.
Proof.
  intros H. unfold printable_or_dot. rewrite H. apply char_to_ascii_chr.
Qed.

Lemma printable_7bit (a : ascii) : printable a -> 32 <= chr a < 128.
Proof. intros H. apply isprint_range in H. lia. Qed.

(** [toString] gives back the four characters a FourCC was made of with
    [v4l2_fourcc], when they are printable. *)
Theorem toString_v4l2_fourcc (a b c d : ascii) :
  printable a -> printable b -> printable c -> printable d ->
  toString {| fourcc_ := v4l2_fourcc a b c d |} = four_chars a b c d "".
Proof.
  intros Ha Hb Hc Hd.
  pose proof (printable_7bit a Ha). pose proof (printable_7bit b Hb).
  pose proof (printable_7bit c Hc). pose proof (printable_7bit d Hd).
  destruct (fourcc_bytes a b c d 0) as (B0 & B1 & B2 & B3); try lia.
  rewrite Z.add_0_r in B0, B1, B2, B3.
  assert (0 < v4l2_fourcc a b c d < 2 ^ 31) as Hf.
  { rewrite v4l2_fourcc_sum. change (2 ^ 8) with 256.
    change (2 ^ 16) with 65536. change (2 ^ 24) with 16777216.
    change (2 ^ 31) with 2147483648. lia. }
  rewrite toString_nonzero by lia. unfold fourcc_name, four_chars.
  rewrite B0, B1, B2, B3, !printable_or_dot_chr by done.
  rewrite (testbit_small _ 31 31) by lia. reflexivity.
Qed.

(** With the big-endian flag, [toString] gives the four characters followed
    by "-BE". *)
Theorem toString_v4l2_fourcc_be (a b c d : ascii) :
  printable a -> printable b -> printable c -> printable d ->
  toString {| fourcc_ := v4l2_fourcc_be a b c d |} = four_chars a b c d "-BE".
Proof.
  intros Ha Hb Hc Hd.
  pose proof (printable_7bit a Ha). pose proof (printable_7bit b Hb).
  pose proof (printable_7bit c Hc). pose proof (printable_7bit d Hd).
  destruct (fourcc_bytes a b c d 1) as (B0 & B1 & B2 & B3); try lia.
  rewrite <- v4l2_fourcc_be_sum in B0, B1, B2, B3 by lia.
  assert (Z.testbit (v4l2_fourcc_be a b c d) 31 = true) as Hbit.
  { unfold v4l2_fourcc_be. rewrite Z.lor_spec.
    change (Z.shiftl 1 31) with (2 ^ 31).
    rewrite Z.pow2_bits_true by lia. apply orb_true_r. }
  assert (v4l2_fourcc_be a b c d <> 0) as Hne.
  { intros E. rewrite E, Z.bits_0 in Hbit. discriminate. }
  rewrite toString_nonzero by done. unfold fourcc_name, four_chars.
  rewrite B0, B1, B2, B3, Hbit, !printable_or_dot_chr by done.
  reflexivity.
Qed.

Lemma printable_or_dot_printable (c : Z) :
  isprint (chr (printable_or_dot c)) = true.
Proof.
  unfold printable_or_dot. destruct (isprint c) eqn:H; [|reflexivity].
  apply isprint_range in H. rewrite chr_char_to_ascii by lia.
  by apply isprint_range.
Qed.

(** Whatever the FourCC, the string [toString] returns is made of
    printable characters only, and has 9, 7 or 4 of them. *)
Theorem toString_printable (f : Z) :
  all_printable (toString {| fourcc_ := f |}) = true /\
  String.length (toString {| fourcc_ := f |})
  = if f =? 0 then 9%nat else if Z.testbit f 31 then 7%nat else 4%nat.
Proof.
  destruct (Z.eqb_spec f 0) as [->|Hne]; [split; reflexivity|].
  rewrite toString_nonzero by done. unfold fourcc_name, all_printable.
  cbn [String.list_ascii_of_string forallb String.length].
  rewrite !printable_or_dot_printable.
  destruct (Z.testbit f 31); split; reflexivity.
Qed.

Lemma toString_ss_fixed (f : Z) :
  toString_ss f
  = [ fixed (masked_byte f 0); fixed (masked_byte f 1);
      fixed (masked_byte f 2); fixed (masked_byte f 3); 0; 0; 0; 0 ].
Proof.
  unfold toString_ss, masked_byte. rewrite toString_loop.
  change (8 * 0) with 0. rewrite Z.shiftr_0_r. reflexivity.
Qed.

(** [toString] in terms of its array. *)
Lemma toString_by_ss (f : Z) :
  f <> 0 ->
  toString {| fourcc_ := f |}
  = string_of_cstr
      (if Z.testbit f 31 then strcat (toString_ss f) be_suffix
       else toString_ss f).
Proof.
  intros Hf. unfold toString. cbn [fourcc_].
  apply Z.eqb_neq in Hf. rewrite Hf, land_bit31, negb_involutive.
  reflexivity.
Qed.

(** [strcat] in [toString] stays inside the array: after the replacement
    loop the string in [ss] has exactly four characters, so that "-BE" and
    its terminating NUL go to cells 4 to 7 of the 8, and the array ends
    with a NUL. *)
Theorem toString_strcat_in_bounds (f : Z) :
  length (toString_ss f) = 8%nat /\
  strlen (toString_ss f) = 4%nat /\
  (strlen (toString_ss f) + length (be_suffix ++ [0%Z])
   <= length (toString_ss f))%nat /\
  strcat (toString_ss f) be_suffix
  = take 4 (toString_ss f) ++ be_suffix ++ [0] /\
  (f <> 0 ->
   toString {| fourcc_ := f |}
   = string_of_cstr
       (if Z.testbit f 31 then strcat (toString_ss f) be_suffix
        else toString_ss f)).
Proof.
  split; [|split; [|split; [|split]]]; [..|apply toString_by_ss];
    rewrite toString_ss_fixed; unfold strcat; cbn [strlen length];
    rewrite ?fixed_nonzero; try reflexivity; cbn; lia.
Qed.

Lemma toString_strcat_in_bounds_witness :
  toString {| fourcc_ := v4l2_fourcc_be "R" "G" "B" "R" |}
  = string_of_cstr
      (strcat (toString_ss (v4l2_fourcc_be "R" "G" "B" "R")) be_suffix).
Proof.
  apply (proj2 (proj2 (proj2 (proj2
           (toString_strcat_in_bounds (v4l2_fourcc_be "R" "G" "B" "R")))))).
  vm_compute. discriminate.
Defined.

Lemma land_read_mask_byte (f i : Z) :
  0 <= i <= 3 -> masked_byte (Z.land f read_mask) i = masked_byte f i.
Proof.
  intros Hi. unfold masked_byte.
  rewrite Z.shiftr_land, <- Z.land_assoc. f_equal.
  assert (i = 0 \/ i = 1 \/ i = 2 \/ i = 3) as [->|[->|[->| ->]]] by lia;
    reflexivity.
Qed.

Lemma land_read_mask_bit31 (f : Z) :
  Z.testbit (Z.land f read_mask) 31 = Z.testbit f 31.
Proof.
  rewrite Z.land_spec. change (Z.testbit read_mask 31) with true.
  apply andb_true_r.
Qed.

(** [toString] does not read bits 7, 15 and 23 of the FourCC: two non-zero
    FourCCs that agree on the other bits get the same string. *)
Theorem toString_ignores_bits (f g : Z) :
  f <> 0 -> g <> 0 ->
  Z.land f read_mask = Z.land g read_mask ->
  toString {| fourcc_ := f |} = toString {| fourcc_ := g |}.
Proof.
  intros Hf Hg E. rewrite !toString_nonzero by done. unfold fourcc_name.
  rewrite <- !(land_read_mask_byte f), <- !(land_read_mask_byte g) by lia.
  rewrite <- (land_read_mask_bit31 f), <- (land_read_mask_bit31 g).
  rewrite E. reflexivity.
Qed.

(** "YUYV" and the same FourCC with bit 7 set. *)
Lemma toString_ignores_bits_witness :
  toString {| fourcc_ := V4L2_PIX_FMT_YUYV |}
  = toString {| fourcc_ := Z.lor V4L2_PIX_FMT_YUYV 128 |}.
Proof.
  apply (toString_ignores_bits V4L2_PIX_FMT_YUYV (Z.lor V4L2_PIX_FMT_YUYV 128));
    [vm_compute; discriminate | vm_compute; discriminate | reflexivity].
Defined.

Lemma toString_v4l2_fourcc_witness :
  toString {| fourcc_ := v4l2_fourcc "M" "J" "P" "G" |} = "MJPG".
Proof.
  apply (toString_v4l2_fourcc "M" "J" "P" "G"); reflexivity.
Defined.

Lemma toString_v4l2_fourcc_be_witness :
  toString {| fourcc_ := v4l2_fourcc_be "R" "G" "B" "R" |} = "RGBR-BE".
Proof.
  apply (toString_v4l2_fourcc_be "R" "G" "B" "R"); reflexivity.
Defined.

(** *** fromPixelFormat *)

Section FromPixelFormat.

Variable PixelFormat : Type.
Variable PixelFormat_default : PixelFormat.
Variable formats : formats.name -> PixelFormat.

(** What [fromPixelFormat] reads of a [PixelFormatInfo]: [isValid()] and
    the two members of [v4l2Formats]. *)
Record PixelFormatInfo := {
  info_isValid : bool;
  v4l2Formats_single : V4L2PixelFormat;
  v4l2Formats_multi : V4L2PixelFormat
}.

(** [PixelFormatInfo::info(pixelFormat)] is defined with the table of
    pixel format descriptions, which is not embedded here: a parameter. *)
Variable PixelFormatInfo_info : PixelFormat -> PixelFormatInfo.

(** [V4L2PixelFormat()]: the invalid format, with FourCC 0. *)
Definition V4L2PixelFormat_default : V4L2PixelFormat := {| fourcc_ := 0 |}.

(** [V4L2PixelFormat V4L2PixelFormat::fromPixelFormat(const PixelFormat
    &pixelFormat, bool multiplanar)]. *)
Definition fromPixelFormat (pixelFormat : PixelFormat) (multiplanar : bool)
    : V4L2PixelFormat :=
  let info := PixelFormatInfo_info pixelFormat in
  if negb (info_isValid info) then V4L2PixelFormat_default
  else if multiplanar then v4l2Formats_multi info
  else v4l2Formats_single info.

(** A pixel format without a valid description converts to the invalid
    V4L2 format, whichever the [multiplanar] flag; that format prints as
    "<INVALID>", and converting it back gives the invalid PixelFormat and
    logs the warning: FourCC 0 is not a key of the table. *)
Theorem fromPixelFormat_unknown (env : Env) (pixelFormat : PixelFormat)
    (multiplanar : bool) :
  info_isValid (PixelFormatInfo_info pixelFormat) = false ->
  fromPixelFormat pixelFormat multiplanar = V4L2PixelFormat_default /\
  toString (fromPixelFormat pixelFormat multiplanar) = "<INVALID>" /\
  effects env
    (toPixelFormat PixelFormat PixelFormat_default formats
       (fromPixelFormat pixelFormat multiplanar))
  = ([ELog "V4L2" LogWarning "Unsupported V4L2 pixel format <INVALID>"],
     PixelFormat_default).
Proof.
  intros H. unfold fromPixelFormat. rewrite H. cbn [negb].
  split; [reflexivity|]. split; [reflexivity|]. unfold toPixelFormat.
  assert (vpf2pf PixelFormat formats !! fourcc_ V4L2PixelFormat_default = None)
    as ->; [|reflexivity].
  apply vpf2pf_lookup_None. apply (bool_decide_unpack _). vm_compute.
  reflexivity.
Qed.

End FromPixelFormat.

(** A description table that knows no format. *)
Lemma fromPixelFormat_unknown_witness :
  let info := fun _ : option formats.name =>
    {| info_isValid := false;
       v4l2Formats_single := {| fourcc_ := 0 |};
       v4l2Formats_multi := {| fourcc_ := 0 |} |} in
  let env := {| current := O; thread_of := fun _ => O; next_sem := O |} in
  fromPixelFormat (option formats.name) info (Some formats.NV12) true
  = V4L2PixelFormat_default /\
  toString (fromPixelFormat (option formats.name) info (Some formats.NV12) true)
  = "<INVALID>" /\
  effects env
    (toPixelFormat (option formats.name) None Some
       (fromPixelFormat (option formats.name) info (Some formats.NV12) true))
  = ([ELog "V4L2" LogWarning "Unsupported V4L2 pixel format <INVALID>"], None).
Proof.
  intros info env.
  exact (fromPixelFormat_unknown (option formats.name) None Some info env
           (Some formats.NV12) true eq_refl).
Defined.

End V4L2Facts.

(** ** Further properties of activatePack *)

Module BoundMethodFacts.

Import BoundMethod.

Definition is_post (e : Effect) : bool :=
  match e with EPostMessage _ _ => true | _ => false end.

Definition is_delete (e : Effect) : bool :=
  match e with EDeleteMethod _ => true | _ => false end.

Definition is_semaphore (e : Effect) : bool :=
  match e with
  | ESemaphoreNew _ | ESemaphoreAcquire _ => true
  | _ => false
  end.

(** The calls of [activatePack], and the value it returns. *)
Definition calls (env : Env) (self : BoundMethodBase) (pack : PackId)
    (deleteMethod : bool) : list Effect :=
  (effects env (activatePack self pack deleteMethod)).1.

Definition returns (env : Env) (self : BoundMethodBase) (pack : PackId)
    (deleteMethod : bool) : bool :=
  (effects env (activatePack self pack deleteMethod)).2.

(** The call takes one of the two branches that post a message. *)
Definition posts (env : Env) (self : BoundMethodBase) : bool :=
  (effectiveType env self =? ConnectionTypeQueued)
  || (effectiveType env self =? ConnectionTypeBlocking).

(** The InvokeMessage of the call, with the semaphore [sem]. *)
Definition message_of (self : BoundMethodBase) (pack : PackId)
    (deleteMethod : bool) (sem : option SemId) : InvokeMessage :=
  {| method_ := self; pack_ := pack; semaphore_ := sem;
     deleteMethod_ := deleteMethod |}.

(** The three shapes a call has. *)
Lemma calls_cases (env : Env) (self : BoundMethodBase) (pack : PackId)
    (deleteMethod : bool) :
  (effectiveType env self = ConnectionTypeQueued /\
   effects env (activatePack self pack deleteMethod)
   = ([EPostMessage (object_ self) (message_of self pack deleteMethod None)],
      false)) \/
  (effectiveType env self = ConnectionTypeBlocking /\
   effects env (activatePack self pack deleteMethod)
   = ([ESemaphoreNew (next_sem env);
       EPostMessage (object_ self)
         (message_of self pack deleteMethod (Some (next_sem env)));
       ESemaphoreAcquire (next_sem env)], true)) \/
  (effectiveType env self <> ConnectionTypeQueued /\
   effectiveType env self <> ConnectionTypeBlocking /\
   effects env (activatePack self pack deleteMethod)
   = (directEffects self pack deleteMethod, true)).
Proof.
  rewrite effects_activatePack. unfold dispatch.
  destruct (Z.eqb_spec (effectiveType env self) ConnectionTypeQueued) as [Eq|Nq];
    [left; by rewrite Eq|].
  destruct (Z.eqb_spec (effectiveType env self) ConnectionTypeBlocking) as [Eb|Nb];
    [right; left; by rewrite Eb|].
  right; right. repeat split; try done.
  unfold directEffects. by destruct deleteMethod.
Qed.

(** [activatePack] returns true exactly when, before returning, it invoked
    the pack itself or waited on the semaphore, and false exactly when the
    effective type is Queued: the flag tells whether the method has run. *)
Theorem activatePack_returns (env : Env) (self : BoundMethodBase)
    (pack : PackId) (deleteMethod : bool) :
  returns env self pack deleteMethod
  = negb (effectiveType env self =? ConnectionTypeQueued) /\
  returns env self pack deleteMethod
  = existsb (fun e => is_invoke e || is_acquire e)
      (calls env self pack deleteMethod).
Proof.
  unfold returns, calls.
  destruct (calls_cases env self pack deleteMethod)
    as [[E ->]|[[E ->]|(Nq & Nb & ->)]].
  - rewrite E. split; reflexivity.
  - rewrite E. split; reflexivity.
  - apply Z.eqb_neq in Nq. rewrite Nq. unfold directEffects.
    split; reflexivity.
Qed.

(** Whatever the connection type and the threads, a call writes nothing to
    the log, and it either invokes the pack itself, exactly once, and posts
    nothing, or posts exactly one message and invokes nothing. *)
Theorem activatePack_invokes_or_posts (env : Env) (self : BoundMethodBase)
    (pack : PackId) (deleteMethod : bool) :
  existsb is_log (calls env self pack deleteMethod) = false /\
  List.filter is_invoke (calls env self pack deleteMethod)
  = (if posts env self then [] else [EInvokePack self pack]) /\
  length (List.filter is_post (calls env self pack deleteMethod))
  = (if posts env self then 1%nat else 0%nat).
Proof.
  unfold calls, posts.
  destruct (calls_cases env self pack deleteMethod)
    as [[E ->]|[[E ->]|(Nq & Nb & ->)]].
  - rewrite E. repeat split.
  - rewrite E. repeat split.
  - apply Z.eqb_neq in Nq, Nb. rewrite Nq, Nb. unfold directEffects.
    destruct deleteMethod; repeat split.
Qed.

(** The bound method is deleted by the caller only when [deleteMethod] is
    set and the caller has invoked it itself, and then after the invocation;
    a call that posts does not delete: the message it posts is addressed to
    the receiver object and carries the method, the pack and the flag. *)
Theorem activatePack_deletes (env : Env) (self : BoundMethodBase)
    (pack : PackId) (deleteMethod : bool) :
  existsb is_delete (calls env self pack deleteMethod)
  = deleteMethod && negb (posts env self) /\
  (existsb is_delete (calls env self pack deleteMethod) = true ->
   calls env self pack deleteMethod
   = [EInvokePack self pack; EDeleteMethod self]) /\
  (forall o msg,
     In (EPostMessage o msg) (calls env self pack deleteMethod) ->
     o = object_ self /\ method_ msg = self /\ pack_ msg = pack /\
     deleteMethod_ msg = deleteMethod).
Proof.
  unfold calls, posts.
  destruct (calls_cases env self pack deleteMethod)
    as [[E ->]|[[E ->]|(Nq & Nb & ->)]].
  - rewrite E. cbn. rewrite andb_false_r. repeat split; try done.
    all: destruct H as [[= <- <-]|[]]; reflexivity.
  - rewrite E. cbn. rewrite andb_false_r. repeat split; try done.
    all: destruct H as [[=]|[[= <- <-]|[[=]|[]]]]; reflexivity.
  - apply Z.eqb_neq in Nq, Nb. rewrite Nq, Nb. unfold directEffects.
    destruct deleteMethod; cbn; repeat split; try done.
    all: intros; repeat (destruct H as [[=]|H]); destruct H.
Qed.

(** A call whose stored connection type is Auto never constructs nor
    acquires a semaphore: it cannot block the caller. *)
Theorem activatePack_auto_never_blocks (env : Env) (self : BoundMethodBase)
    (pack : PackId) (deleteMethod : bool) :
  connectionType_ self = ConnectionTypeAuto ->
  existsb is_semaphore (calls env self pack deleteMethod) = false /\
  blocks env self pack deleteMethod = false.
Proof.
  intros H. unfold calls, blocks. rewrite effects_activatePack.
  rewrite (effectiveType_auto env self H).
  destruct (Nat.eqb _ _), deleteMethod; split; reflexivity.
Qed.

(** A stored connection type other than Auto is taken as it is: the
    threads are not looked at, so that a Direct call to an object that
    lives on another thread is still invoked by the caller. *)
Theorem activatePack_explicit_type (env1 env2 : Env) (self : BoundMethodBase)
    (pack : PackId) (deleteMethod : bool) :
  connectionType_ self <> ConnectionTypeAuto ->
  next_sem env1 = next_sem env2 ->
  effects env1 (activatePack self pack deleteMethod)
  = effects env2 (activatePack self pack deleteMethod).
Proof.
  intros H Hs. rewrite !effects_activatePack, !effectiveType_stored by done.
  unfold dispatch.
  destruct (connectionType_ self =? ConnectionTypeQueued); [reflexivity|].
  destruct (connectionType_ self =? ConnectionTypeBlocking);
    [cbn; by rewrite Hs|].
  destruct deleteMethod; reflexivity.
Qed.

(** The environment of a caller on thread 1. *)
Definition env1 : Env :=
  {| current := 1; thread_of := thread_of env0; next_sem := O |}.

Lemma activatePack_deletes_witness :
  calls env0 (method0 0 ConnectionTypeAuto) 5 true
  = [EInvokePack (method0 0 ConnectionTypeAuto) 5;
     EDeleteMethod (method0 0 ConnectionTypeAuto)].
Proof.
  apply (proj1 (proj2 (activatePack_deletes env0
                         (method0 0 ConnectionTypeAuto) 5 true))).
  reflexivity.
Defined.

Lemma activatePack_auto_never_blocks_witness :
  existsb is_semaphore (calls env0 (method0 1 ConnectionTypeAuto) 5 false)
  = false /\
  blocks env0 (method0 1 ConnectionTypeAuto) 5 false = false.
Proof.
  apply (activatePack_auto_never_blocks env0 (method0 1 ConnectionTypeAuto)
           5 false eq_refl).
Defined.

(** A Direct call to object 0, which lives on thread 0, made from thread 0
    and made from thread 1. *)
Lemma activatePack_explicit_type_witness :
  effects env0 (activatePack (method0 0 ConnectionTypeDirect) 5 false)
  = effects env1 (activatePack (method0 0 ConnectionTypeDirect) 5 false).
Proof.
  apply (activatePack_explicit_type env0 env1
           (method0 0 ConnectionTypeDirect) 5 false);
    [vm_compute; discriminate | reflexivity].
Defined.

End BoundMethodFacts.

(** ** Further properties of the EventHandler of the test *)

Module EventHandlerFacts.

Import V4L2 EventThread.

(** The four bytes [notify] writes. *)
Definition h2g2 : list Z := map chr (String.list_ascii_of_string "H2G2").

(** [k] calls of [notify] in a row. *)
Fixpoint notify_times (k : nat) (h : EventHandler) : EventHandler :=
  match k with
  | O => h
  | S k => notify_times k (notify h).1
  end.

(** What the pipe holds after [k] calls of [notify]. *)
Definition pending (k : nat) (h : EventHandler) : list Z :=
  pipe_ h ++ concat (replicate k h2g2).

(** The number of bytes [readReady] gets. *)
Definition available (h : EventHandler) : nat :=
  Nat.min (length (pipe_ h)) (length (data_ h)).

Lemma notify_fields (h : EventHandler) :
  (notify h).2 = TestPass /\
  pipe_ (notify h).1 = pipe_ h ++ h2g2 /\
  data_ (notify h).1 = replicate (length (data_ h)) 0 /\
  size_ (notify h).1 = 0 /\
  thread_ (notify h).1 = thread_ h /\
  notified_ (notify h).1 = notified_ h.
Proof. repeat split. Qed.

Lemma readReady_fields (h : EventHandler) :
  size_ (readReady h) = Z.of_nat (available h) /\
  data_ (readReady h)
  = take (available h) (pipe_ h) ++ drop (available h) (data_ h) /\
  pipe_ (readReady h) = drop (available h) (pipe_ h) /\
  notified_ (readReady h) = true /\
  thread_ (readReady h) = thread_ h.
Proof.
  unfold readReady, pipe_read, available. cbn.
  rewrite length_take.
  destruct (Nat.le_ge_cases (length (data_ h)) (length (pipe_ h))) as [Hle|Hge].
  - rewrite !Nat.min_l, (Nat.min_r (length (pipe_ h))) by lia. done.
  - rewrite (Nat.min_r (length (data_ h))), (Nat.min_l (length (pipe_ h))) by lia.
    rewrite (take_ge (pipe_ h) (length (data_ h))) by lia.
    rewrite (take_ge (pipe_ h) (length (pipe_ h))) by lia.
    rewrite (drop_ge (pipe_ h) (length (data_ h))) by lia.
    rewrite (drop_ge (pipe_ h) (length (pipe_ h))) by lia. done.
Qed.

(** [readReady], called with data pending in the pipe, reads within
    [data_]: the array keeps its size, [size_] is the number of bytes taken,
    at most the size of the array; those bytes are at the front of [data_]
    and have left the pipe, in order, and [notified_] is set. *)
Theorem readReady_in_bounds (h : EventHandler) :
  pipe_ h <> [] ->
  length (data_ (readReady h)) = length (data_ h) /\
  0 <= size_ (readReady h) <= Z.of_nat (length (data_ h)) /\
  size_ (readReady h) = Z.of_nat (available h) /\
  take (available h) (data_ (readReady h)) = take (available h) (pipe_ h) /\
  pipe_ h = take (available h) (data_ (readReady h)) ++ pipe_ (readReady h) /\
  notified_ (readReady h) = true.
Proof.
  intros _.
  destruct (readReady_fields h) as (-> & -> & -> & -> & _).
  assert (available h <= length (pipe_ h))%nat as Hp
    by (unfold available; lia).
  assert (available h <= length (data_ h))%nat as Hd
    by (unfold available; lia).
  assert (length (take (available h) (pipe_ h)) = available h) as Ht
    by (rewrite length_take; lia).
  repeat split; try lia.
  - rewrite length_app, Ht, length_drop. lia.
  - rewrite take_app_length'; done.
  - rewrite take_app_length' by done. by rewrite take_drop.
Qed.

(** A handler with twenty bytes pending and an array of 16. *)
Lemma readReady_in_bounds_witness :
  let h := {| thread_ := second_thread; pipe_ := replicate 20 65;
              notified_ := false; data_ := replicate 16 0; size_ := 0 |} in
  length (data_ (readReady h)) = 16%nat /\
  0 <= size_ (readReady h) <= 16 /\
  size_ (readReady h) = 16 /\
  take 16 (data_ (readReady h)) = replicate 16 65 /\
  replicate 20 65 = take 16 (data_ (readReady h)) ++ pipe_ (readReady h) /\
  notified_ (readReady h) = true.
Proof.
  intros h. apply (readReady_in_bounds h). discriminate.
Defined.

Lemma notify_times_fields (k : nat) (h : EventHandler) :
  pipe_ (notify_times k h) = pending k h /\
  length (data_ (notify_times k h)) = length (data_ h) /\
  ((1 <= k)%nat ->
   data_ (notify_times k h) = replicate (length (data_ h)) 0).
Proof.
  revert h. induction k as [|k IH]; intros h.
  - unfold pending. cbn. rewrite app_nil_r. repeat split. lia.
  - destruct (IH (notify h).1) as (Hp & Hl & Hd).
    destruct (notify_fields h) as (_ & Np & Nd & _).
    cbn [notify_times]. rewrite Hp, Hl. unfold pending.
    rewrite Np, Nd, length_replicate, <- app_assoc. repeat split.
    intros _. destruct k as [|k]; [exact Nd|].
    rewrite Hd by lia. by rewrite Nd, length_replicate.
Qed.

(** Notifications that are not read in between coalesce: after [k] calls
    of [notify], one call of [readReady] gets all the pending bytes the
    array has room for, over an array that [notify] had zeroed, and leaves
    the others in the pipe. *)
Theorem notify_coalesce (k : nat) (h : EventHandler) :
  (1 <= k)%nat ->
  let n := Nat.min (length (pending k h)) (length (data_ h)) in
  size_ (readReady (notify_times k h)) = Z.of_nat n /\
  data_ (readReady (notify_times k h))
  = take n (pending k h) ++ replicate (length (data_ h) - n) 0 /\
  pipe_ (readReady (notify_times k h)) = drop n (pending k h).
Proof.
  intros Hk n.
  destruct (notify_times_fields k h) as (Hp & Hl & Hd).
  destruct (readReady_fields (notify_times k h)) as (-> & -> & -> & _).
  unfold available. rewrite Hp, Hl, Hd by done. fold n.
  rewrite drop_replicate. done.
Qed.

(** Two notifications on a fresh handler with a 16-byte array: one read
    gets the eight bytes and empties the pipe. *)
Lemma notify_coalesce_witness :
  let h := EventHandler_new main_thread (replicate 16 7) 99 in
  size_ (readReady (notify_times 2 h)) = 8 /\
  data_ (readReady (notify_times 2 h)) = h2g2 ++ h2g2 ++ replicate 8 0 /\
  pipe_ (readReady (notify_times 2 h)) = [].
Proof.
  intros h. apply (notify_coalesce 2 h). lia.
Defined.

(** The handler when the test ends without the event having been seen. *)
Definition handler_pending (data0 : list Z) : EventHandler :=
  {| thread_ := second_thread; pipe_ := h2g2; notified_ := false;
     data_ := replicate (length data0) 0; size_ := 0 |}.

(** The test tells a dropped event: when the loop of the second thread
    does not iterate between [moveToThread] and [exit], whatever it did
    before, [readReady] has not run, the four bytes are still in the pipe
    and the test fails.  In particular the loop does not see the event while
    the handler lives on the main thread. *)
Theorem test_fails_without_loop (data0 : list Z) (size0 : Z)
    (n0 n1 n2 n4 : nat) :
  calls (exec data0 size0 (schedule n0 n1 n2 0 n4)) = [] /\
  handler (exec data0 size0 (schedule n0 n1 n2 0 n4))
  = Some (handler_pending data0) /\
  result (exec data0 size0 (schedule n0 n1 n2 0 n4)) = TestFail.
Proof.
  assert (exec data0 size0 (schedule n0 n1 n2 0 n4)
          = {| handler := Some (handler_pending data0); loop_running := false;
               pc := 4; calls := [] |}) as ->; [|done].
  unfold exec, schedule. rewrite !foldl_app.
  rewrite (loops_idle data0 size0 n0) by reflexivity.
  cbn [foldl sched_step]. unfold main_step at 4. cbn [pc started].
  rewrite (loops_idle data0 size0 n1) by reflexivity.
  unfold main_step at 3. cbn [pc handler].
  rewrite (loops_idle data0 size0 n2) by reflexivity.
  unfold main_step at 2. cbn [pc handler].
  cbn [replicate foldl].
  unfold main_step at 1. cbn [pc handler loop_running calls].
  apply loops_idle. reflexivity.
Qed.

End EventHandlerFacts.
